(** * Mnemosyne MCP: the Neo4j storage provider, its versioning, search and decay

    A shallow embedding of [Neo4jStorageProvider] (src/unnamed/part_004) and
    of [LocalEmbeddingService._normalizeVector].

    The graph store is modelled as a list of entity nodes and a list of
    RELATES_TO edges.  A node is identified by its [id] property (a fresh
    uuid for every version), an edge refers to its endpoints by node id.
    The order of the lists is the order in which the store returns rows.
    [uuidv4] is modelled by a counter kept next to the store.  JSON
    serialisation of the observation list is the identity (the model keeps
    the parsed list on the node).  JavaScript numbers are rationals ([Q])
    in the store and search model and reals ([R]) in the decay and
    normalisation model. *)

From Stdlib Require Import List String ZArith Bool QArith Qround Lia Reals Lra Sorted.
Import ListNotations.

Module KG.

(** ** Rows of the store *)

Record Entity := mkEntity {
  e_id : nat;
  e_name : string;
  e_entityType : string;
  e_observations : list string;
  e_version : Z;
  e_createdAt : Z;
  e_updatedAt : Z;
  e_validFrom : Z;
  e_validTo : option Z;
  e_changedBy : option string
}.

Record Relationship := mkRel {
  r_id : nat;
  r_from : nat;            (* id of the source node *)
  r_to : nat;              (* id of the target node *)
  r_relationType : string;
  r_strength : option Q;
  r_confidence : option Q;
  r_metadata : option string;
  r_version : Z;
  r_createdAt : Z;
  r_updatedAt : Z;
  r_validFrom : Z;
  r_validTo : option Z;
  r_changedBy : option string
}.

Record Store := mkStore {
  ents : list Entity;
  rels : list Relationship;
  next_id : nat
}.

Definition emptyStore : Store := mkStore [] [] 0.

(** [uuidv4()]: a fresh identifier. *)
Definition uuidv4 (s : Store) : nat * Store :=
  (next_id s, mkStore (ents s) (rels s) (S (next_id s))).

(** ** JavaScript helpers *)

Definition is_null (o : option Z) : bool :=
  match o with None => true | Some _ => false end.

(** [x || d] on an optional number: [undefined] and [0] are falsy. *)
Definition js_or_Z (o : option Z) (d : Z) : Z :=
  match o with Some v => if Z.eqb v 0 then d else v | None => d end.

(** [x || null] on an optional number. *)
Definition js_or_null_Q (o : option Q) : option Q :=
  match o with Some q => if Qeq_bool q 0 then None else Some q | None => None end.

(** [x || null] on an optional string: [""] is falsy. *)
Definition js_or_null_str (o : option string) : option string :=
  match o with Some v => if String.eqb v "" then None else Some v | None => None end.

Definition mem_str (x : string) (l : list string) : bool :=
  existsb (String.eqb x) l.

(** [Array.prototype.includes] followed by [filter]: the set difference
    that keeps the order of [l]. *)
Definition not_in (l ex : list string) : list string :=
  filter (fun c => negb (mem_str c ex)) l.

(** ** Queries on the store *)

Definition is_current (e : Entity) : bool := is_null (e_validTo e).

(** [MATCH (e:Entity {name: $name})] *)
Definition named (s : Store) (n : string) : list Entity :=
  filter (fun e => String.eqb (e_name e) n) (ents s).

(** [MATCH (e:Entity {name: $name}) WHERE e.validTo IS NULL] *)
Definition current_named (s : Store) (n : string) : list Entity :=
  filter (fun e => String.eqb (e_name e) n && is_current e) (ents s).

(** [MATCH (e:Entity {id: $id})] *)
Definition with_id (s : Store) (i : nat) : list Entity :=
  filter (fun e => Nat.eqb (e_id e) i) (ents s).

Definition node_name (s : Store) (i : nat) : option string :=
  option_map e_name (find (fun e => Nat.eqb (e_id e) i) (ents s)).

Definition name_is (s : Store) (i : nat) (n : string) : bool :=
  match node_name s i with Some m => String.eqb m n | None => false end.

(** [MATCH (from ...) MATCH (to ...) CREATE (from)-[r]->(to)]: one edge per
    pair of bound nodes, in the order the two matches enumerate them. *)
Definition create_edges (froms tos : list Entity)
    (mk : nat -> nat -> Relationship) : list Relationship :=
  flat_map (fun f => map (fun t => mk (e_id f) (e_id t)) tos) froms.

Definition add_ents (s : Store) (es : list Entity) : Store :=
  mkStore (ents s ++ es) (rels s) (next_id s).

Definition add_rels (s : Store) (rs : list Relationship) : Store :=
  mkStore (ents s) (rels s ++ rs) (next_id s).

Definition set_e_validTo (now : Z) (e : Entity) : Entity :=
  mkEntity (e_id e) (e_name e) (e_entityType e) (e_observations e) (e_version e)
    (e_createdAt e) (e_updatedAt e) (e_validFrom e) (Some now) (e_changedBy e).

Definition set_r_validTo (now : Z) (r : Relationship) : Relationship :=
  mkRel (r_id r) (r_from r) (r_to r) (r_relationType r) (r_strength r)
    (r_confidence r) (r_metadata r) (r_version r) (r_createdAt r)
    (r_updatedAt r) (r_validFrom r) (Some now) (r_changedBy r).

(** ** createEntities *)

Record EntityInput := mkEntityInput {
  ei_name : string;
  ei_entityType : string;
  ei_observations : list string;
  ei_createdAt : option Z;
  ei_updatedAt : option Z;
  ei_validFrom : option Z;
  ei_changedBy : option string
}.

(** The row written by [CREATE (e:Entity {...})].  The [embedding]
    property is left out of the model: generating it never changes any
    other property, and a failure to generate it is caught and logged. *)
Definition new_entity_row (now : Z) (id : nat) (ei : EntityInput) : Entity :=
  mkEntity id (ei_name ei) (ei_entityType ei) (ei_observations ei) 1
    (js_or_Z (ei_createdAt ei) now) (js_or_Z (ei_updatedAt ei) now)
    (js_or_Z (ei_validFrom ei) now) None (js_or_null_str (ei_changedBy ei)).

Fixpoint createEntities_loop (now : Z) (es : list EntityInput) (s : Store)
    (created : list Entity) : Store * list Entity :=
  match es with
  | [] => (s, created)
  | ei :: rest =>
      let '(entityId, s1) := uuidv4 s in
      let row := new_entity_row now entityId ei in
      createEntities_loop now rest (add_ents s1 [row]) (created ++ [row])
  end.

Definition createEntities (now : Z) (es : list EntityInput) (s : Store)
    : Store * list Entity :=
  match es with
  | [] => (s, [])
  | _ => createEntities_loop now es s []
  end.

(** ** createRelations *)

Record RelationInput := mkRelationInput {
  ri_from : string;
  ri_to : string;
  ri_relationType : string;
  ri_strength : option Q;
  ri_confidence : option Q;
  ri_metadata : option string;   (* already [JSON.stringify]-ed *)
  ri_createdAt : option Z;
  ri_updatedAt : option Z;
  ri_validFrom : option Z;
  ri_changedBy : option string
}.

Definition simpleRelation (from to ty : string) : RelationInput :=
  mkRelationInput from to ty None None None None None None None.

Definition new_relation_row (now : Z) (id : nat) (ri : RelationInput)
    (f t : nat) : Relationship :=
  mkRel id f t (ri_relationType ri) (js_or_null_Q (ri_strength ri))
    (js_or_null_Q (ri_confidence ri)) (ri_metadata ri) 1
    (js_or_Z (ri_createdAt ri) now) (js_or_Z (ri_updatedAt ri) now)
    (js_or_Z (ri_validFrom ri) now) None (js_or_null_str (ri_changedBy ri)).

(** The check query [MATCH (from:Entity {name: $fromName})
    MATCH (to:Entity {name: $toName}) RETURN from, to] has no record iff
    one of the two matches is empty. *)
Definition endpoints_found (s : Store) (ri : RelationInput) : bool :=
  negb (List.length (named s (ri_from ri)) * List.length (named s (ri_to ri)) =? 0)%nat.

Fixpoint createRelations_loop (now : Z) (rs : list RelationInput) (s : Store)
    (created : list Relationship) : Store * list Relationship :=
  match rs with
  | [] => (s, created)
  | ri :: rest =>
      let '(relationId, s1) := uuidv4 s in
      if negb (endpoints_found s1 ri) then
        (* logger.warn("Skipping relation creation ..."); continue *)
        createRelations_loop now rest s1 created
      else
        let newEdges := create_edges (named s1 (ri_from ri)) (named s1 (ri_to ri))
                          (new_relation_row now relationId ri) in
        let created' := match newEdges with
                        | [] => created
                        | r :: _ => created ++ [r]
                        end in
        createRelations_loop now rest (add_rels s1 newEdges) created'
  end.

Definition createRelations (now : Z) (rs : list RelationInput) (s : Store)
    : Store * list Relationship :=
  match rs with
  | [] => (s, [])
  | _ => createRelations_loop now rs s []
  end.

(** ** addObservations *)

(** [OPTIONAL MATCH (e)-[r:RELATES_TO]->(to:Entity) WHERE r.validTo IS NULL] *)
Definition outgoing (s : Store) (e : Entity) : list Relationship :=
  filter (fun r => Nat.eqb (r_from r) (e_id e) && is_null (r_validTo r)) (rels s).

(** [OPTIONAL MATCH (from:Entity)-[r2:RELATES_TO]->(e) WHERE r2.validTo IS NULL] *)
Definition incoming (s : Store) (e : Entity) : list Relationship :=
  filter (fun r => Nat.eqb (r_to r) (e_id e) && is_null (r_validTo r)) (rels s).

(** [MATCH (e:Entity {id: $id}) SET e.validTo = $now] *)
Definition close_entity (now : Z) (i : nat) (s : Store) : Store :=
  mkStore (map (fun e => if Nat.eqb (e_id e) i then set_e_validTo now e else e) (ents s))
    (rels s) (next_id s).

(** The invalidate query of [addObservations]: the node, then its current
    outgoing and incoming edges. *)
Definition close_entity_and_edges (now : Z) (i : nat) (s : Store) : Store :=
  let s1 := close_entity now i s in
  mkStore (ents s1)
    (map (fun r => if (Nat.eqb (r_from r) i || Nat.eqb (r_to r) i) && is_null (r_validTo r)
                   then set_r_validTo now r else r) (rels s1))
    (next_id s1).

(** An edge carried forward to the new entity version (step 5). *)
Definition carried_row (now : Z) (id : nat) (rp : Relationship) (f t : nat) : Relationship :=
  mkRel id f t (r_relationType rp)
    (match r_strength rp with Some x => Some x | None => Some (9 # 10) end)
    (match r_confidence rp with Some x => Some x | None => Some (95 # 100) end)
    (js_or_null_str (r_metadata rp)) (js_or_Z (Some (r_version rp)) 1)
    (js_or_Z (Some (r_createdAt rp)) now) now now None None.

Fixpoint recreate_out (now : Z) (newId : nat) (rs : list Relationship) (s : Store) : Store :=
  match rs with
  | [] => s
  | rp :: rest =>
      let '(rid, s1) := uuidv4 s in
      recreate_out now newId rest
        (add_rels s1 (create_edges (with_id s1 newId) (with_id s1 (r_to rp))
                        (carried_row now rid rp)))
  end.

Fixpoint recreate_in (now : Z) (newId : nat) (rs : list Relationship) (s : Store) : Store :=
  match rs with
  | [] => s
  | rp :: rest =>
      let '(rid, s1) := uuidv4 s in
      recreate_in now newId rest
        (add_rels s1 (create_edges (with_id s1 (r_from rp)) (with_id s1 newId)
                        (carried_row now rid rp)))
  end.

(** One element of the batch.  [None] is a [continue] that pushes no
    result. *)
Definition addObservations_item (now : Z) (name : string) (contents : list string)
    (s : Store) : Store * option (string * list string) :=
  if String.eqb name "" || (match contents with [] => true | _ => false end)
  then (s, None)
  else
    match current_named s name with
    | [] => (s, None) (* logger.warn(`Entity not found: ...`); continue *)
    | cur :: _ =>
        let outs := outgoing s cur in
        let ins := incoming s cur in
        let newVersion := (js_or_Z (Some (e_version cur)) 0 + 1)%Z in
        let '(newEntityId, s1) := uuidv4 s in
        let newObservations := not_in contents (e_observations cur) in
        match newObservations with
        | [] => (s1, Some (name, []))
        | _ =>
            let allObservations := e_observations cur ++ newObservations in
            let s2 := close_entity_and_edges now (e_id cur) s1 in
            let row := mkEntity newEntityId (e_name cur) (e_entityType cur)
                         allObservations newVersion (e_createdAt cur) now now None None in
            let s3 := add_ents s2 [row] in
            let s4 := recreate_out now newEntityId outs s3 in
            let s5 := recreate_in now newEntityId ins s4 in
            (s5, Some (name, newObservations))
        end
    end.

Fixpoint addObservations_loop (now : Z) (obs : list (string * list string)) (s : Store)
    (results : list (string * list string)) : Store * list (string * list string) :=
  match obs with
  | [] => (s, results)
  | (n, cs) :: rest =>
      let '(s1, r) := addObservations_item now n cs s in
      addObservations_loop now rest s1
        (match r with Some x => results ++ [x] | None => results end)
  end.

Definition addObservations (now : Z) (obs : list (string * list string)) (s : Store)
    : Store * list (string * list string) :=
  match obs with
  | [] => (s, [])
  | _ => addObservations_loop now obs s []
  end.

(** ** deleteObservations *)

Definition deleteObservations_item (now : Z) (name : string) (dels : list string)
    (s : Store) : Store :=
  if String.eqb name "" || (match dels with [] => true | _ => false end)
  then s
  else
    match current_named s name with
    | [] => s
    | cur :: _ =>
        let updatedObservations := not_in (e_observations cur) dels in
        let newVersion := (js_or_Z (Some (e_version cur)) 0 + 1)%Z in
        let '(newEntityId, s1) := uuidv4 s in
        let s2 := close_entity now (e_id cur) s1 in
        add_ents s2 [mkEntity newEntityId (e_name cur) (e_entityType cur)
                       updatedObservations newVersion (e_createdAt cur) now now None None]
    end.

Fixpoint deleteObservations (now : Z) (dels : list (string * list string)) (s : Store)
    : Store :=
  match dels with
  | [] => s
  | (n, os) :: rest => deleteObservations now rest (deleteObservations_item now n os s)
  end.

(** ** updateRelation *)

(** A rejected promise carries the error message. *)
Inductive Outcome (A : Type) :=
| Done (a : A)
| Thrown (msg : string).
Arguments Done {A} a.
Arguments Thrown {A} msg.

(** [MATCH (from:Entity {name: $fromName})-[r:RELATES_TO]->(to:Entity {name: $toName})
    WHERE r.relationType = $relationType] *)
Definition edges_between (s : Store) (from to ty : string) : list Relationship :=
  filter (fun r => name_is s (r_from r) from && name_is s (r_to r) to
                   && String.eqb (r_relationType r) ty) (rels s).

Definition current_edges_between (s : Store) (from to ty : string) : list Relationship :=
  filter (fun r => is_null (r_validTo r)) (edges_between s from to ty).

Definition updateRelation (now : Z) (ri : RelationInput) (s : Store) : Outcome Store :=
  match current_edges_between s (ri_from ri) (ri_to ri) (ri_relationType ri) with
  | [] =>
      (* throw; the transaction is rolled back and the error rethrown *)
      Thrown ("Relation not found: " ++ ri_from ri ++ " -> " ++ ri_to ri
              ++ " (" ++ ri_relationType ri ++ ")")
  | cur :: _ =>
      let newVersion := (js_or_Z (Some (r_version cur)) 0 + 1)%Z in
      let '(newRelationId, s1) := uuidv4 s in
      let s2 := mkStore (ents s1)
                  (map (fun r => if Nat.eqb (r_id r) (r_id cur)
                                    && name_is s1 (r_from r) (ri_from ri)
                                    && name_is s1 (r_to r) (ri_to ri)
                                 then set_r_validTo now r else r) (rels s1))
                  (next_id s1) in
      let mk f t :=
        mkRel newRelationId f t (ri_relationType ri)
          (match ri_strength ri with Some x => Some x | None => r_strength cur end)
          (match ri_confidence ri with Some x => Some x | None => r_confidence cur end)
          (match ri_metadata ri with Some m => Some m | None => r_metadata cur end)
          newVersion (r_createdAt cur) now now None (js_or_null_str (ri_changedBy ri)) in
      Done (add_rels s2 (create_edges (named s2 (ri_from ri)) (named s2 (ri_to ri)) mk))
  end%string.

(** ** Hard deletes *)

(** [MATCH (e:Entity) WHERE e.name IN $names DETACH DELETE e]: every version
    of the named entities goes, with every edge attached to one of them. *)
Definition deleteEntities (names : list string) (s : Store) : Store :=
  match names with
  | [] => s
  | _ =>
      let gone i := existsb (fun e => Nat.eqb (e_id e) i && mem_str (e_name e) names)
                      (ents s) in
      mkStore (filter (fun e => negb (mem_str (e_name e) names)) (ents s))
        (filter (fun r => negb (gone (r_from r) || gone (r_to r))) (rels s))
        (next_id s)
  end.

Definition deleteRelation_one (ri : RelationInput) (s : Store) : Store :=
  mkStore (ents s)
    (filter (fun r => negb (name_is s (r_from r) (ri_from ri) && name_is s (r_to r) (ri_to ri)
                            && String.eqb (r_relationType r) (ri_relationType ri)))
       (rels s))
    (next_id s).

Definition deleteRelations (rs : list RelationInput) (s : Store) : Store :=
  fold_left (fun st ri => deleteRelation_one ri st) rs s.

(** ** Reads *)

(** A query result; relations carry the names of their endpoint nodes
    ([from.name AS fromName, to.name AS toName]) next to the edge. *)
Record Graph := mkGraph {
  g_entities : list Entity;
  g_relations : list (string * string * Relationship)
}.

Definition emptyGraph : Graph := mkGraph [] [].

Definition edge_ends (s : Store) (r : Relationship) : option (string * string) :=
  match node_name s (r_from r), node_name s (r_to r) with
  | Some f, Some t => Some (f, t)
  | _, _ => None
  end.

(** [MATCH (from:Entity)-[r:RELATES_TO]->(to:Entity) WHERE keep(from.name, to.name, r)] *)
Definition match_edges (s : Store) (keep : string -> string -> Relationship -> bool)
    : list (string * string * Relationship) :=
  flat_map (fun r => match edge_ends s r with
                     | Some (f, t) => if keep f t r then [(f, t, r)] else []
                     | None => []
                     end) (rels s).

(** [validFrom <= $timestamp AND (validTo IS NULL OR validTo > $timestamp)] *)
Definition valid_at (vf : Z) (vt : option Z) (t : Z) : bool :=
  Z.leb vf t && match vt with None => true | Some v => Z.ltb t v end.

Definition getGraphAtTime (t : Z) (s : Store) : Graph :=
  mkGraph (filter (fun e => valid_at (e_validFrom e) (e_validTo e) t) (ents s))
    (match_edges s (fun _ _ r => valid_at (r_validFrom r) (r_validTo r) t)).

(** Every edge of the store hangs between two nodes of the store (Neo4j
    cannot hold a relationship without its endpoints). *)
Definition store_wf (s : Store) : bool :=
  forallb (fun r => match edge_ends s r with Some _ => true | None => false end) (rels s).

(** ** Sequences of operations *)

Inductive Op :=
| OpCreateEntities (now : Z) (es : list EntityInput)
| OpCreateRelations (now : Z) (rs : list RelationInput)
| OpAddObservations (now : Z) (obs : list (string * list string))
| OpDeleteObservations (now : Z) (dels : list (string * list string))
| OpUpdateRelation (now : Z) (ri : RelationInput)
| OpDeleteEntities (names : list string)
| OpDeleteRelations (rs : list RelationInput).

(** The store after one operation; a thrown operation rolls back. *)
Definition run_op (s : Store) (o : Op) : Store :=
  match o with
  | OpCreateEntities now es => fst (createEntities now es s)
  | OpCreateRelations now rs => fst (createRelations now rs s)
  | OpAddObservations now obs => fst (addObservations now obs s)
  | OpDeleteObservations now dels => deleteObservations now dels s
  | OpUpdateRelation now ri =>
      match updateRelation now ri s with Done s' => s' | Thrown _ => s end
  | OpDeleteEntities names => deleteEntities names s
  | OpDeleteRelations rs => deleteRelations rs s
  end.

Definition run_ops (s : Store) (ops : list Op) : Store := fold_left run_op ops s.

(** At most one current row per entity name. *)
Definition one_current (s : Store) : Prop :=
  forall n, (List.length (current_named s n) <= 1)%nat.

Definition one_current_b (s : Store) : bool :=
  forallb (fun e => Nat.leb (List.length (current_named s (e_name e))) 1) (ents s).

Fixpoint distinct_names (l : list string) : bool :=
  match l with
  | [] => true
  | x :: r => negb (mem_str x r) && distinct_names r
  end.

(** [createEntities] is given names that are pairwise distinct and have no
    current row yet. *)
Definition fresh_batch (s : Store) (es : list EntityInput) : bool :=
  distinct_names (map ei_name es)
  && forallb (fun ei => match current_named s (ei_name ei) with [] => true | _ => false end) es.

Definition op_fresh (s : Store) (o : Op) : bool :=
  match o with
  | OpCreateEntities _ es => fresh_batch s es
  | _ => true
  end.

Fixpoint ops_fresh (s : Store) (ops : list Op) : bool :=
  match ops with
  | [] => true
  | o :: rest => op_fresh s o && ops_fresh (run_op s o) rest
  end.

(** ** Further reads *)

(** [getRelation]: the first record of [MATCH (from:Entity {name: $fromName})
    -[r:RELATES_TO]->(to:Entity {name: $toName}) WHERE r.relationType =
    $relationType AND r.validTo IS NULL RETURN r, from, to], or [null].
    The edge row is returned with its endpoint names; [relationshipToRelation]
    keeps [relationType], [strength] and [confidence] as they are stored. *)
Definition getRelation (s : Store) (from to type : string)
    : option (string * string * Relationship) :=
  hd_error (match_edges s (fun f t r => String.eqb f from && String.eqb t to
                                        && String.eqb (r_relationType r) type
                                        && is_null (r_validTo r))).

(** [loadGraph]: the current entity rows and the current edges with the
    names of their endpoints. *)
Definition loadGraph (s : Store) : Graph :=
  mkGraph (filter is_current (ents s)) (match_edges s (fun _ _ r => is_null (r_validTo r))).

(** Node ids are pairwise distinct and all below the [uuidv4] counter. *)
Fixpoint nodup_nat (l : list nat) : bool :=
  match l with
  | [] => true
  | x :: r => negb (existsb (Nat.eqb x) r) && nodup_nat r
  end.

Definition ids_ok (s : Store) : bool :=
  nodup_nat (map e_id (ents s)) && forallb (fun e => Nat.ltb (e_id e) (next_id s)) (ents s).

(** A node with id [i] is in the store. *)
Definition has_node (s : Store) (i : nat) : Prop := exists e, In e (ents s) /\ e_id e = i.

(** The rows [createEntities_loop] appends, the first with id [k]. *)
Fixpoint rows_from (now : Z) (k : nat) (es : list EntityInput) : list Entity :=
  match es with
  | [] => []
  | ei :: rest => new_entity_row now k ei :: rows_from now (S k) rest
  end.

(** The filter of [current_named] and the row update of [close_entity]. *)
Definition cnb (m : string) (e : Entity) : bool := String.eqb (e_name e) m && is_current e.

Definition close_row (i : nat) (now : Z) (e : Entity) : Entity :=
  if Nat.eqb (e_id e) i then set_e_validTo now e else e.

(** Every row of [s] is still a row of [s'], or it was current and [s']
    holds it closed at some time [t]. *)
Definition history_kept (s s' : Store) : Prop :=
  forall e, In e (ents s) ->
    In e (ents s') \/ (is_current e = true /\ exists t, In (set_e_validTo t e) (ents s')).

(** The one operation that removes rows ([DETACH DELETE]). *)
Definition hard_delete (o : Op) : bool :=
  match o with OpDeleteEntities _ => true | _ => false end.

End KG.

Module Search.
Import KG.

Record SearchOptions := mkOpts {
  o_limit : option Q;
  o_entityTypes : option (list string);
  o_minSimilarity : option Q;
  o_queryVector : option (list Q)
}.

Definition noOptions : SearchOptions := mkOpts None None None None.

Definition with_limit (o : SearchOptions) (l : Q) : SearchOptions :=
  mkOpts (Some l) (o_entityTypes o) (o_minSimilarity o) (o_queryVector o).

Definition with_queryVector (o : SearchOptions) (v : list Q) : SearchOptions :=
  mkOpts (o_limit o) (o_entityTypes o) (o_minSimilarity o) (Some v).

(** The provider and its external collaborators. *)
Record Env := mkEnv {
  store : Store;
  (** the store's regex test [text =~ pattern] *)
  regexMatch : string -> string -> bool;
  (** [this.embeddingService]: [None] when it could not be created;
      [generateEmbedding] yields [None] when it throws *)
  embeddingService : option (string -> option (list Q));
  (** [CALL db.index.vector.queryNodes('entity_embeddings', $limit, $embedding)
      YIELD node, score]; [None] when the procedure fails *)
  queryNodes : Z -> list Q -> option (list (Entity * Q))
}.

(** JavaScript truthiness of an optional object (an empty array is truthy). *)
Definition is_some {A : Type} (o : option A) : bool :=
  match o with Some _ => true | None => false end.

(** [x || d] on an optional number. *)
Definition js_or_Q (o : option Q) (d : Q) : Q :=
  match o with Some q => if Qeq_bool q 0 then d else q | None => d end.

(** [Array.prototype.slice(0, n)] *)
Definition js_slice0 {A : Type} (l : list A) (n : Z) : list A :=
  if Z.leb 0 n then firstn (Z.to_nat n) l
  else firstn (Z.to_nat (Z.of_nat (List.length l) + n)) l.

Definition quote : string := String (Ascii.ascii_of_nat 34) EmptyString.

(** [JSON.stringify] of a list of strings (for strings JSON does not
    escape). *)
Definition jsonStringify (l : list string) : string :=
  ("[" ++ String.concat "," (map (fun x => quote ++ x ++ quote)%string l) ++ "]")%string.

(** [options.entityTypes] as an allow-list; absent or empty allows all. *)
Definition type_allowed (ets : option (list string)) (e : Entity) : bool :=
  match ets with
  | Some ((_ :: _) as l) => mem_str (e_entityType e) l
  | _ => true
  end.

Definition current_edge_among (names : list string) (f t : string) (r : Relationship) : bool :=
  mem_str f names && mem_str t names && is_null (r_validTo r).

(** ** searchNodes: the lexical search *)

Definition searchNodes (env : Env) (query : string) (o : SearchOptions) : option Graph :=
  let rawLimit := js_or_Q (o_limit o) 10 in
  let limit := Qfloor rawLimit in
  let pat := ("(?i).*" ++ query ++ ".*")%string in
  let s := store env in
  if Z.ltb limit 0 then None (* the store rejects a negative LIMIT *)
  else
    let hits := filter (fun e => (regexMatch env pat (e_name e)
                                  || regexMatch env pat (e_entityType e)
                                  || regexMatch env pat (jsonStringify (e_observations e)))
                                 && type_allowed (o_entityTypes o) e
                                 && is_current e) (ents s) in
    let entities := firstn (Z.to_nat limit) hits in
    let entityNames := map e_name entities in
    match entityNames with
    | [] => Some (mkGraph entities [])
    | _ => Some (mkGraph entities (match_edges s (current_edge_among entityNames)))
    end.

(** ** openNodes and getEntity *)

Definition openNodes (s : Store) (names : list string) : Graph :=
  match names with
  | [] => emptyGraph
  | _ => mkGraph (filter (fun e => mem_str (e_name e) names && is_current e) (ents s))
           (match_edges s (current_edge_among names))
  end.

Definition getEntity (s : Store) (n : string) : option Entity :=
  hd_error (current_named s n).

(** [ORDER BY e.validFrom ASC].  The query leaves the order of rows with
    equal [validFrom] open; the model keeps them in store order. *)
Fixpoint insert_validFrom (e : Entity) (l : list Entity) : list Entity :=
  match l with
  | [] => [e]
  | x :: r => if Z.leb (e_validFrom x) (e_validFrom e) then x :: insert_validFrom e r
              else e :: x :: r
  end.

Definition sort_validFrom (l : list Entity) : list Entity :=
  fold_left (fun acc e => insert_validFrom e acc) l [].

(** [getEntityHistory]: every version of the name, current or closed. *)
Definition getEntityHistory (s : Store) (n : string) : list Entity :=
  sort_validFrom (named s n).

(** ** Vector search *)

(** [ORDER BY score DESC], stable. *)
Fixpoint insert_desc {A : Type} (x : A * Q) (l : list (A * Q)) : list (A * Q) :=
  match l with
  | [] => [x]
  | y :: r => if negb (Qle_bool (snd x) (snd y)) then x :: y :: r else y :: insert_desc x r
  end.

Definition sort_desc {A : Type} (l : list (A * Q)) : list (A * Q) :=
  fold_left (fun acc x => insert_desc x acc) l [].

(** The direct vector search of [semanticSearch]; [None] when it fails and
    control reaches the fallback. *)
Definition vectorDirect (env : Env) (qv : list Q) (searchLimit : Z) (minSimilarity : Q)
    : option Graph :=
  let s := store env in
  match queryNodes env searchLimit qv with
  | None => None
  | Some cands =>
      let rows := sort_desc (filter (fun c => Qle_bool minSimilarity (snd c)) cands) in
      match rows with
      | [] => Some emptyGraph
      | _ =>
          let entities := flat_map (fun c => match getEntity s (e_name (fst c)) with
                                             | Some e => [e] | None => [] end) rows in
          match entities with
          | [] => Some emptyGraph
          | _ => Some (openNodes s (map e_name entities))
          end
      end
  end.

Definition findSimilarEntities (env : Env) (qv : list Q) (limit : Z) : list (Entity * Q) :=
  let s := store env in
  match queryNodes env limit qv with
  | None => [] (* catch: return [] *)
  | Some cands =>
      let found := flat_map (fun c => match getEntity s (e_name (fst c)) with
                                      | Some e => [(e, snd c)] | None => [] end)
                     (sort_desc cands) in
      js_slice0 (filter (fun c => is_current (fst c)) found) limit
  end.

Definition vectorFallback (env : Env) (qv : list Q) (searchLimit : Z) (minSimilarity : Q)
    (o : SearchOptions) : Graph :=
  let results := findSimilarEntities env qv (searchLimit * 2) in
  let filteredResults :=
    js_slice0 (filter (fun c => type_allowed (o_entityTypes o) (fst c))
                 (filter (fun c => Qle_bool minSimilarity (snd c)) results)) searchLimit in
  match filteredResults with
  | [] => emptyGraph
  | _ => openNodes (store env) (map (fun c => e_name (fst c)) filteredResults)
  end.

(** The text-search tail of [semanticSearch]. *)
Definition textSearch (env : Env) (query : string) (o : SearchOptions) : option Graph :=
  let textSearchLimit := Qfloor (js_or_Q (o_limit o) 10) in
  searchNodes env query (with_limit o (inject_Z textSearchLimit)).

(** [semanticSearch].  The lazy vector-store initialisation only logs, so
    it is left out; [None] is a rejected promise. *)
Definition semanticSearch (env : Env) (query : string) (o : SearchOptions) : option Graph :=
  if negb (is_some (o_queryVector o)) && is_some (embeddingService env) then
    (* options.queryVector = await this.embeddingService.generateEmbedding(query) *)
    let o' := match embeddingService env with
              | Some gen => match gen query with
                            | Some v => with_queryVector o v
                            | None => o (* caught and logged *)
                            end
              | None => o
              end in
    textSearch env query o'
  else
    match o_queryVector o with
    | Some qv =>
        let searchLimit := Qfloor (js_or_Q (o_limit o) 10) in
        let minSimilarity := js_or_Q (o_minSimilarity o) (6 # 10) in
        match vectorDirect env qv searchLimit minSimilarity with
        | Some g => Some g
        | None => Some (vectorFallback env qv searchLimit minSimilarity o)
        end
    | None => textSearch env query o
    end.

(** A limit outside the open interval (0, 1). *)
Definition limit_not_fractional (o : SearchOptions) : bool :=
  match o_limit o with
  | Some l => Qle_bool l 0 || Qle_bool 1 l
  | None => true
  end.

End Search.

Module Decay.
Local Open Scope R_scope.

(** The properties of a current RELATES_TO edge, with its endpoint names,
    as [MATCH (from)-[r]->(to) WHERE r.validTo IS NULL
    RETURN r, from.name, to.name] yields them. *)
Record StoredRel := mkStoredRel {
  sr_from : string;
  sr_to : string;
  sr_relationType : string;
  sr_strength : option R;
  sr_confidence : option R;
  sr_metadata : option string;
  sr_createdAt : option R;
  sr_updatedAt : option R;
  sr_validFrom : option R
}.

(** The [Relation] object returned by [relationshipToRelation]: [from], [to],
    [relationType], [strength], [confidence] and a [metadata] bag holding
    [createdAt] and [updatedAt] (plus the parsed stored metadata).  It has
    no [validFrom] and no [createdAt] property of its own. *)
Record Relation := mkRelation {
  rel_from : string;
  rel_to : string;
  rel_relationType : string;
  rel_strength : option R;
  rel_confidence : option R;
  rel_metadata_createdAt : R;
  rel_metadata_updatedAt : R;
  rel_metadata_extra : option string
}.

Record DecayConfig := mkDecayConfig {
  enabled : bool;
  halfLifeDays : R;
  minConfidence : R
}.

(** [x || d] on an optional number. *)
Definition js_or_R (o : option R) (d : R) : R :=
  match o with Some x => if Req_EM_T x 0 then d else x | None => d end.

Definition relationshipToRelation (now : R) (r : StoredRel) : Relation :=
  mkRelation (sr_from r) (sr_to r) (sr_relationType r) (sr_strength r) (sr_confidence r)
    (js_or_R (sr_createdAt r) now) (js_or_R (sr_updatedAt r) now) (sr_metadata r).

(** [(relation as ExtendedRelation).validFrom] and [.createdAt]: properties
    the [Relation] object does not have, so they read as [undefined]. *)
Definition ext_validFrom (r : Relation) : option R := None.
Definition ext_createdAt (r : Relation) : option R := None.

Definition set_confidence (r : Relation) (c : R) : Relation :=
  mkRelation (rel_from r) (rel_to r) (rel_relationType r) (rel_strength r) (Some c)
    (rel_metadata_createdAt r) (rel_metadata_updatedAt r) (rel_metadata_extra r).

Definition decayFactor (cfg : DecayConfig) : R :=
  let halfLifeMs := halfLifeDays cfg * 24 * 60 * 60 * 1000 in
  ln (1 / 2) / halfLifeMs.

(** The body of the [relationResult.records.map] callback. *)
Definition decay_relation (cfg : DecayConfig) (startTime : R) (r : StoredRel) : Relation :=
  let relation := relationshipToRelation startTime r in
  match rel_confidence relation with
  | None => relation
  | Some c =>
      let ageDiff :=
        startTime - js_or_R (ext_validFrom relation)
                      (js_or_R (ext_createdAt relation) startTime) in
      let decayedConfidence := c * exp (decayFactor cfg * ageDiff) in
      let decayedConfidence :=
        if Rlt_dec decayedConfidence (minConfidence cfg) then minConfidence cfg
        else decayedConfidence in
      set_confidence relation decayedConfidence
  end.

(** [getDecayedGraph] on the current entities and edges; disabled decay is
    [loadGraph]. *)
Definition getDecayedGraph (cfg : DecayConfig) (startTime : R)
    (entities : list KG.Entity) (current : list StoredRel)
    : list KG.Entity * list Relation :=
  if enabled cfg then (entities, map (decay_relation cfg startTime) current)
  else (entities, map (relationshipToRelation startTime) current).

(** The decay model as the specification states it:
    [max(C_min, c0 * e^(k * (now - (validFrom or createdAt))))]. *)
Definition spec_decayed_confidence (cfg : DecayConfig) (now : R) (r : StoredRel) (c0 : R) : R :=
  let t0 := js_or_R (sr_validFrom r) (js_or_R (sr_createdAt r) now) in
  Rmax (minConfidence cfg) (c0 * exp (decayFactor cfg * (now - t0))).

End Decay.

Module Embedding.
Local Open Scope R_scope.

(** [for (...) magnitude += vector[i] * vector[i]] *)
Definition sum_squares (v : list R) : R :=
  fold_left (fun acc x => acc + x * x) v 0.

Definition magnitude (v : list R) : R := sqrt (sum_squares v).

(** [_normalizeVector], returning the updated array ([vector[0] = 1] on an
    empty array appends the element). *)
Definition normalizeVector (v : list R) : list R :=
  let m := magnitude v in
  if Rlt_dec 0 m then map (fun x => x / m) v
  else match v with
       | [] => [1]
       | _ :: rest => 1 :: rest
       end.

(** [generateEmbedding], given what the feature-extraction pipeline
    produced ([None] when loading the model or running it throws). *)
Definition generateEmbedding (extractorOutput : option (list R)) : KG.Outcome (list R) :=
  match extractorOutput with
  | None => KG.Thrown "Error generating local embedding"
  | Some [] =>
      KG.Thrown "Error generating local embedding: Invalid embedding returned from local model"
  | Some embedding => KG.Done (normalizeVector embedding)
  end.

(** [Array.prototype.slice(start, end)] (and [Float32Array.prototype.slice]):
    negative bounds count from the end, bounds are clamped to the array. *)
Definition js_slice {A : Type} (l : list A) (start end_ : Z) : list A :=
  let len := Z.of_nat (List.length l) in
  let k := if Z.ltb start 0 then Z.max (len + start) 0 else Z.min start len in
  let f := if Z.ltb end_ 0 then Z.max (len + end_) 0 else Z.min end_ len in
  firstn (Z.to_nat (f - k)) (skipn (Z.to_nat k) l).

(** [generateEmbeddings], given [this.dimensions], the texts and the flat
    [output.data] of the pipeline ([None] when loading the model or running
    it throws): the i-th vector is the normalised slice
    [data.slice(i * dimensions, i * dimensions + dimensions)]. *)
Definition generateEmbeddings (dimensions : Z) (texts : list string)
    (extractorOutput : option (list R)) : KG.Outcome (list (list R)) :=
  match extractorOutput with
  | None => KG.Thrown "Failed to generate local embeddings"
  | Some data =>
      KG.Done (map (fun i => let start := (Z.of_nat i * dimensions)%Z in
                             normalizeVector (js_slice data start (start + dimensions)%Z))
                 (seq 0 (List.length texts)))
  end.

End Embedding.

(** * The local embedding service configuration and the service factory *)

Module Factory.
Import KG.
Local Open Scope string_scope.

(** [String.prototype.toLowerCase] on 8-bit characters: only [A-Z] have a
    lower case among the characters a Rocq string holds. *)
Definition lower_ascii (c : Ascii.ascii) : Ascii.ascii :=
  let n := Ascii.nat_of_ascii c in
  if (65 <=? n)%nat && (n <=? 90)%nat then Ascii.ascii_of_nat (n + 32) else c.

Fixpoint toLowerCase (s : string) : string :=
  match s with
  | EmptyString => EmptyString
  | String c r => String (lower_ascii c) (toLowerCase r)
  end.

(** [x || d] on an optional string: [undefined] and [""] are falsy. *)
Definition js_or_str (o : option string) (d : string) : string :=
  match o with Some v => if String.eqb v "" then d else v | None => d end.

Record ModelConfig := mkModelConfig {
  mc_dimensions : Z;
  mc_pooling : string;
  mc_version : string
}.

(** [SUPPORTED_MODELS[model]].  A name inherited from [Object.prototype]
    (such as [constructor]) yields a function without [dimensions],
    [pooling] or [version], which the constructor treats as [undefined]. *)
Definition SUPPORTED_MODELS (m : string) : option ModelConfig :=
  if String.eqb m "Xenova/bge-base-en-v1.5" then Some (mkModelConfig 768 "mean" "1.5.0")
  else if String.eqb m "Xenova/bge-small-en-v1.5" then Some (mkModelConfig 384 "mean" "1.5.0")
  else if String.eqb m "Xenova/bge-m3" then Some (mkModelConfig 1024 "cls" "3.0.0")
  else if String.eqb m "Xenova/bge-large-en-v1.5" then Some (mkModelConfig 1024 "mean" "1.5.0")
  else None.

Record LocalEmbeddingConfig := mkLocalConfig {
  lc_model : option string;
  lc_dimensions : option Z;
  lc_version : option string;
  lc_pooling : option string
}.

(** The fields [model], [dimensions], [version] and [pooling] of a
    [LocalEmbeddingService]. *)
Record LocalEmbeddingService := mkLocalService {
  ls_model : string;
  ls_dimensions : Z;
  ls_version : string;
  ls_pooling : string
}.

(** [new LocalEmbeddingService(config)] *)
Definition newLocalEmbeddingService (config : LocalEmbeddingConfig) : LocalEmbeddingService :=
  let model := js_or_str (lc_model config) "Xenova/bge-base-en-v1.5" in
  let modelConfig := SUPPORTED_MODELS model in
  mkLocalService model
    (js_or_Z (lc_dimensions config) (js_or_Z (option_map mc_dimensions modelConfig) 768))
    (js_or_str (lc_version config) (js_or_str (option_map mc_version modelConfig) "1.0.0"))
    (js_or_str (lc_pooling config) (js_or_str (option_map mc_pooling modelConfig) "mean")).

Record EmbeddingModelInfo := mkModelInfo {
  mi_name : string;
  mi_dimensions : Z;
  mi_version : string
}.

Definition getModelInfo (svc : LocalEmbeddingService) : EmbeddingModelInfo :=
  mkModelInfo (ls_model svc) (ls_dimensions svc) (ls_version svc).


(** [process.env] as the factory reads it. *)
Record ProcessEnv := mkProcessEnv {
  MOCK_EMBEDDINGS : option string;
  EMBEDDING_PROVIDER : option string;
  OPENAI_API_KEY : option string;
  LOCAL_EMBEDDING_MODEL : option string;
  OPENAI_EMBEDDING_MODEL : option string
}.

(** The constructors of [DefaultEmbeddingService] and
    [OpenAIEmbeddingService] are defined outside this file: they are
    parameters, and each may throw. *)
Section Services.
Context {Service : Type}.
Context (newDefault : option Z -> Outcome Service).
Context (newOpenAI : string -> option string -> option Z -> Outcome Service).
Context (newLocal : LocalEmbeddingService -> Service).














(** [createFromEnvironment()].  The local service's constructor and its
    [getModelInfo] do not throw; an [OpenAIEmbeddingService] that cannot be
    built falls back to the default service. *)
Definition createFromEnvironment (env : ProcessEnv) : Outcome Service :=
  let useMockEmbeddings := match MOCK_EMBEDDINGS env with
                           | Some v => String.eqb v "true"
                           | None => false
                           end in
  let embeddingProvider := js_or_str (option_map toLowerCase (EMBEDDING_PROVIDER env)) "auto" in
  let localModel := js_or_str (LOCAL_EMBEDDING_MODEL env) "Xenova/bge-base-en-v1.5" in
  let localService :=
    newLocal (newLocalEmbeddingService (mkLocalConfig (Some localModel) None None None)) in
  if useMockEmbeddings then newDefault None
  else if String.eqb embeddingProvider "local" then Done localService
  else
    let embeddingModel := js_or_str (OPENAI_EMBEDDING_MODEL env) "text-embedding-3-small" in
    (* (embeddingProvider === 'openai' || embeddingProvider === 'auto') && openaiApiKey *)
    let openaiKey := if String.eqb embeddingProvider "openai" || String.eqb embeddingProvider "auto"
                     then js_or_null_str (OPENAI_API_KEY env) else None in
    match openaiKey with
    | Some openaiApiKey =>
        match newOpenAI openaiApiKey (Some embeddingModel) None with
        | Done service => Done service
        | Thrown _ => newDefault None
        end
    | None =>
        if String.eqb embeddingProvider "auto" then Done localService
        else newDefault None
    end.

End Services.

End Factory.

(** * Concrete stores and inputs used by the examples below *)

Module Examples.
Import KG.
Local Open Scope string_scope.

Definition eA : EntityInput := mkEntityInput "A" "person" ["o1"] None None None None.
Definition eB : EntityInput := mkEntityInput "B" "person" [] None None None None.

(** Create A and B, append an observation to A, then relate A to B. *)
Definition opsAB : list Op :=
  [OpCreateEntities 1 [eA; eB]; OpAddObservations 2 [("A", ["x"])];
   OpCreateRelations 3 [simpleRelation "A" "B" "relates_to"]].

Definition storeAB : Store := run_ops emptyStore opsAB.

(** What [saveGraph] writes for a snapshot taken between A's two versions
    and saved back: A only as a closed row, B current. *)
Definition storeSnap : Store :=
  mkStore [mkEntity 0 "A" "person" ["o1"] 1 1 1 1 (Some 2%Z) None;
           mkEntity 1 "B" "person" [] 1 1 1 1 None None] [] 2.

Definition storeA : Store := fst (createEntities 1 [eA] emptyStore).

(** A and B created together, then one edge from A to B. *)
Definition storeEAB : Store := fst (createEntities 1 [eA; eB] emptyStore).

Definition storeRel : Store :=
  fst (createRelations 2 [simpleRelation "A" "B" "relates_to"] storeEAB).

(** An update that sets the strength of the A-B edge to 0.5. *)
Definition riHalf : RelationInput :=
  mkRelationInput "A" "B" "relates_to" (Some (1 # 2)) None None None None None None.

(** Creating the same entity twice. *)
Definition opsTwice : list Op := [OpCreateEntities 1 [eA]; OpCreateEntities 2 [eA]].

(** A sequence using every versioned operation. *)
Definition opsMixed : list Op :=
  opsAB ++
  [OpDeleteObservations 4 [("A", ["o1"])];
   OpUpdateRelation 5 (mkRelationInput "A" "B" "relates_to" (Some (1 # 2)) None None
                         None None None None);
   OpAddObservations 6 [("B", ["y"]); ("C", ["z"])];
   OpDeleteRelations [simpleRelation "A" "B" "relates_to"];
   OpDeleteEntities ["B"];
   OpCreateEntities 7 [eB]].

Section DecayData.
Local Open Scope R_scope.
Import Decay.

Definition cfgC5 : DecayConfig := mkDecayConfig true 30 (1 / 10).

(** An edge of confidence 0.9 whose [validFrom] lies one half-life back. *)
Definition relC5 : StoredRel :=
  mkStoredRel "A" "B" "relates_to" None (Some (9 / 10)) None (Some 1000) (Some 1000) (Some 1000).

Definition nowC5 : R := 1000 + 30 * 24 * 60 * 60 * 1000.

End DecayData.

Section SearchData.
Import Search.

(** A stand-in for the store's regex test on patterns [(?i).*q.*]: [q]
    occurs in the text (case is not folded). *)
Definition exRegex (pat txt : string) : bool :=
  let q := String.substring 6 (String.length pat - 8) pat in
  match String.index 0 q txt with Some _ => true | None => false end.

Definition alice : Entity := mkEntity 0 "Alice" "person" ["likes tea"] 1 1 1 1 None None.
Definition bob : Entity := mkEntity 1 "Bob" "project" ["a build tool"] 1 1 1 1 None None.

Definition storeAlice : Store := mkStore [alice] [] 2.
Definition storeBobAlice : Store := mkStore [bob; alice] [] 2.

(** An embedding service that succeeds, and a vector index that ranks
    Alice at 0.9. *)
Definition envC1 : Env :=
  mkEnv storeAlice exRegex (Some (fun _ => Some [1; 0]%Q)) (fun _ _ => Some [(alice, 9 # 10)]).

(** Explicit query vector; the index ranks Alice (a person) at 0.9 and Bob
    (a project) at 0.7. *)
Definition envC7 : Env :=
  mkEnv storeBobAlice exRegex None (fun _ _ => Some [(alice, 9 # 10); (bob, 7 # 10)]).

Definition optsC7 : SearchOptions :=
  mkOpts None (Some ["project"]) None (Some [1; 0]%Q).

(** No embedding service. *)
Definition envC8 : Env := mkEnv storeAlice exRegex None (fun _ _ => None).

Definition optsHalf : SearchOptions := mkOpts (Some (1 # 2)) None None None.
Definition optsFive : SearchOptions := mkOpts (Some 5) None None None.

End SearchData.

End Examples.

(** * Properties *)

Import KG.

(** ** Reads at an instant *)

Lemma valid_at_true (vf : Z) (vt : option Z) (t : Z) :
  valid_at vf vt t = true <->
  (vf <= t)%Z /\ (vt = None \/ exists v, vt = Some v /\ (t < v)%Z).
Proof.
  unfold valid_at; rewrite andb_true_iff, Z.leb_le.
  destruct vt as [v|]; split.
  - intros [H1 H2]; apply Z.ltb_lt in H2; split; [exact H1 | right; eauto].
  - intros [H1 [H2 | (w & Hw & H2)]]; [discriminate | ].
    injection Hw as <-; split; [exact H1 | apply Z.ltb_lt; exact H2].
  - intros [H1 _]; split; [exact H1 | left; reflexivity].
  - intros [H1 _]; split; [exact H1 | reflexivity].
Qed.

Lemma in_match_edges (s : Store) keep f t r :
  In (f, t, r) (match_edges s keep) <->
  In r (rels s) /\ edge_ends s r = Some (f, t) /\ keep f t r = true.
Proof.
  unfold match_edges; rewrite in_flat_map; split.
  - intros (r' & Hin & Hr).
    destruct (edge_ends s r') as [[f' t']|] eqn:He; [|contradiction].
    destruct (keep f' t' r') eqn:Hk; [|contradiction].
    destruct Hr as [Heq|[]]; injection Heq as -> -> ->; auto.
  - intros (Hin & He & Hk); exists r; split; [exact Hin|].
    rewrite He, Hk; left; reflexivity.
Qed.

(** C9: [getGraphAtTime t] holds exactly the entity rows and the relation
    rows with [validFrom <= t] and either no [validTo] or [t < validTo]. *)
Theorem getGraphAtTime_includes_iff_valid (s : Store) (t : Z) (Hwf : store_wf s = true) :
  (forall e, In e (g_entities (getGraphAtTime t s)) <->
     In e (ents s) /\ (e_validFrom e <= t)%Z
     /\ (e_validTo e = None \/ exists v, e_validTo e = Some v /\ (t < v)%Z)) /\
  (forall r, (exists f to, In (f, to, r) (g_relations (getGraphAtTime t s))) <->
     In r (rels s) /\ (r_validFrom r <= t)%Z
     /\ (r_validTo r = None \/ exists v, r_validTo r = Some v /\ (t < v)%Z)).
Proof.
  split.
  - intros e; simpl; rewrite filter_In, valid_at_true; tauto.
  - intros r; simpl; split.
    + intros (f & to & Hin); apply in_match_edges in Hin as (Hr & _ & Hk).
      apply valid_at_true in Hk; tauto.
    + intros (Hr & Hv); unfold store_wf in Hwf; rewrite forallb_forall in Hwf.
      specialize (Hwf r Hr).
      destruct (edge_ends s r) as [[f to]|] eqn:He; [|discriminate].
      exists f, to; apply in_match_edges; split; [exact Hr|]; split; [exact He|].
      apply valid_at_true; exact Hv.
Qed.

(** ** Normalisation of local embeddings *)

Section Normalize.
Local Open Scope R_scope.
Import Embedding.

Lemma sum_squares_acc (v : list R) (a : R) :
  fold_left (fun acc x => acc + x * x) v a = a + sum_squares v.
Proof.
  unfold sum_squares; revert a; induction v as [|x v IH]; intros a; simpl.
  - ring.
  - rewrite (IH (a + x * x)), (IH (0 + x * x)); ring.
Qed.

Lemma sum_squares_cons (x : R) (v : list R) :
  sum_squares (x :: v) = x * x + sum_squares v.
Proof. unfold sum_squares at 1; simpl; rewrite sum_squares_acc; ring. Qed.

Lemma sum_squares_nonneg (v : list R) : 0 <= sum_squares v.
Proof.
  induction v as [|x v IH].
  - unfold sum_squares; simpl; lra.
  - rewrite sum_squares_cons; nra.
Qed.

Lemma sum_squares_div (v : list R) (m : R) (Hm : m <> 0) :
  sum_squares (map (fun x => x / m) v) = sum_squares v / (m * m).
Proof.
  induction v as [|x v IH].
  - unfold sum_squares; simpl; field; exact Hm.
  - simpl map; rewrite !sum_squares_cons, IH; field; exact Hm.
Qed.

Lemma normalizeVector_unit (v : list R) (Hv : v <> []) :
  magnitude (normalizeVector v) = 1.
Proof.
  unfold normalizeVector.
  pose proof (sum_squares_nonneg v) as Hnn.
  destruct (Rlt_dec 0 (magnitude v)) as [Hpos | Hnpos].
  - unfold magnitude in *.
    rewrite sum_squares_div by lra.
    rewrite sqrt_sqrt by exact Hnn.
    assert (sum_squares v <> 0) as Hne.
    { intros H0; rewrite H0, sqrt_0 in Hpos; lra. }
    replace (sum_squares v / sum_squares v) with 1 by (field; exact Hne).
    apply sqrt_1.
  - destruct v as [|x rest]; [contradiction|].
    assert (magnitude (x :: rest) = 0) as H0.
    { pose proof (sqrt_pos (sum_squares (x :: rest))); unfold magnitude in *; lra. }
    unfold magnitude in H0; apply sqrt_eq_0 in H0; [|exact Hnn].
    rewrite sum_squares_cons in H0.
    pose proof (sum_squares_nonneg rest).
    unfold magnitude; rewrite sum_squares_cons.
    replace (1 * 1 + sum_squares rest) with 1 by nra.
    apply sqrt_1.
Qed.

(** C10: every vector [generateEmbedding] returns has L2 norm 1. *)
Theorem generateEmbedding_unit_norm (out : option (list R)) (v : list R)
    (H : generateEmbedding out = KG.Done v) :
  magnitude v = 1.
Proof.
  destruct out as [[|x rest]|]; simpl in H; try discriminate.
  injection H as <-; apply normalizeVector_unit; discriminate.
Qed.

End Normalize.

(** ** Confidence decay *)

Section DecayProofs.
Local Open Scope R_scope.
Import Decay.

Lemma js_or_R_nonzero (x d : R) (Hx : x <> 0) : js_or_R (Some x) d = x.
Proof. simpl; destruct (Req_EM_T x 0); [contradiction | reflexivity]. Qed.

(** The decayed confidence of an edge does not depend on its age: the age
    is computed from properties the converted relation does not carry. *)
Lemma decay_relation_confidence (cfg : DecayConfig) (t : R) (r : StoredRel) (c : R)
    (Hc : sr_confidence r = Some c) :
  rel_confidence (decay_relation cfg t r)
  = Some (if Rlt_dec c (minConfidence cfg) then minConfidence cfg else c).
Proof.
  unfold decay_relation; simpl; rewrite Hc; simpl.
  replace (c * exp (decayFactor cfg * (t - t))) with c.
  - reflexivity.
  - rewrite Rminus_diag, Rmult_0_r, exp_0; ring.
Qed.

(** C5 (code evaluated at the failing input): with a 30-day half-life, an
    edge of confidence 0.9 that is one half-life old keeps confidence 0.9
    in [getDecayedGraph], where the decay model gives 0.45. *)
Theorem getDecayedGraph_ignores_age :
  map rel_confidence (snd (getDecayedGraph Examples.cfgC5 Examples.nowC5 [] [Examples.relC5]))
  = [Some (9 / 10)]
  /\ spec_decayed_confidence Examples.cfgC5 Examples.nowC5 Examples.relC5 (9 / 10) = 9 / 20.
Proof.
  split.
  - unfold getDecayedGraph; cbn [enabled Examples.cfgC5 snd map].
    rewrite (decay_relation_confidence _ _ _ (9 / 10)) by reflexivity.
    simpl; destruct (Rlt_dec (9 / 10) (1 / 10)); [lra | reflexivity].
  - unfold spec_decayed_confidence; simpl sr_validFrom.
    rewrite js_or_R_nonzero by lra.
    unfold decayFactor, Examples.cfgC5, Examples.nowC5; simpl.
    replace (ln (1 / 2) / (30 * 24 * 60 * 60 * 1000)
             * (1000 + 30 * 24 * 60 * 60 * 1000 - 1000)) with (ln (1 / 2)) by (field; lra).
    rewrite exp_ln by lra.
    rewrite Rmax_right by lra; field.
Qed.

End DecayProofs.

(** ** Search *)

Section SearchProofs.
Import Search.

(** [searchNodes] reads the options only through the floored limit and
    the type allow-list. *)
Lemma searchNodes_options (env : Env) (q : string) (o1 o2 : SearchOptions)
    (Hl : Qfloor (js_or_Q (o_limit o1) 10) = Qfloor (js_or_Q (o_limit o2) 10))
    (Ht : o_entityTypes o1 = o_entityTypes o2) :
  searchNodes env q o1 = searchNodes env q o2.
Proof. unfold searchNodes; rewrite Hl, Ht; reflexivity. Qed.

(** Without an explicit query vector, [semanticSearch] always ends in the
    text search: a freshly generated query vector is stored in the options
    and never reaches the vector index. *)
Lemma semanticSearch_without_vector (env : Env) (q : string) (o : SearchOptions)
    (Hv : o_queryVector o = None) :
  semanticSearch env q o = textSearch env q o.
Proof.
  unfold semanticSearch; rewrite Hv; simpl.
  destruct (embeddingService env) as [gen|]; simpl; [|reflexivity].
  destruct (gen q) as [v|]; [|reflexivity].
  unfold textSearch; apply searchNodes_options; reflexivity.
Qed.

(** C1 (code evaluated at the failing input): the embedding service
    answers and the vector index would rank Alice at 0.9 for that vector,
    yet [semanticSearch "tea drinker"] without a vector returns the empty
    lexical result; with the same vector passed explicitly it returns
    Alice. *)
Theorem semanticSearch_embeds_but_searches_text :
  semanticSearch Examples.envC1 "tea drinker" noOptions = Some emptyGraph
  /\ semanticSearch Examples.envC1 "tea drinker" (with_queryVector noOptions [1; 0]%Q)
     = Some (mkGraph [Examples.alice] []).
Proof.
  split.
  - rewrite semanticSearch_without_vector by reflexivity; vm_compute; reflexivity.
  - vm_compute; reflexivity.
Qed.

(** C7 (code evaluated at the failing input): with an explicit vector and
    [entityTypes = ["project"]], the direct vector search returns Alice (a
    person) as well as Bob, and in store order (Bob 0.7 before Alice
    0.9). *)
Theorem semanticSearch_vector_ignores_entityTypes :
  semanticSearch Examples.envC7 "x" Examples.optsC7
  = Some (mkGraph [Examples.bob; Examples.alice] []).
Proof. vm_compute; reflexivity. Qed.

Lemma floor_zero_fractional (l : Q) (Hz : Qfloor l = 0%Z) (Hn : Qeq_bool l 0 = false) :
  Qle_bool l 0 || Qle_bool 1 l = false.
Proof.
  pose proof (Qfloor_le l) as Hle; pose proof (Qlt_floor l) as Hlt.
  rewrite Hz in Hle, Hlt; simpl in Hlt.
  apply orb_false_iff; split.
  - apply not_true_iff_false; rewrite Qle_bool_iff; intros H.
    apply not_true_iff_false in Hn; apply Hn, Qeq_bool_iff, Qle_antisym; assumption.
  - apply not_true_iff_false; rewrite Qle_bool_iff; intros H.
    apply (Qlt_not_le _ _ Hlt), H.
Qed.

(** C8 (as amended): with no embedding service and no query vector,
    [semanticSearch] returns what [searchNodes] returns for the same query
    and options, whenever the limit is not strictly between 0 and 1. *)
Theorem semanticSearch_no_gateway_is_searchNodes (env : Env) (q : string) (o : SearchOptions)
    (Hsvc : embeddingService env = None) (Hv : o_queryVector o = None)
    (Hlim : limit_not_fractional o = true) :
  semanticSearch env q o = searchNodes env q o.
Proof.
  rewrite semanticSearch_without_vector by exact Hv.
  unfold textSearch; apply searchNodes_options; [|reflexivity].
  cbn [o_limit with_limit]; unfold limit_not_fractional in Hlim.
  destruct (o_limit o) as [l|] eqn:Hol; unfold js_or_Q at 2 3.
  - destruct (Qeq_bool l 0) eqn:Hl0.
    + unfold js_or_Q; reflexivity.
    + unfold js_or_Q; destruct (Qeq_bool (inject_Z (Qfloor l)) 0) eqn:Hz.
      * exfalso; apply Qeq_bool_iff in Hz.
        assert (Qfloor l = 0%Z) as Hf.
        { unfold Qeq in Hz; simpl in Hz; lia. }
        rewrite (floor_zero_fractional l Hf Hl0) in Hlim; discriminate.
      * rewrite Qfloor_Z; reflexivity.
  - unfold js_or_Q; reflexivity.
Qed.

(** C8 does not hold for every option set: for [limit = 0.5],
    [searchNodes] runs with LIMIT 0 and finds nothing, while
    [semanticSearch] re-reads the floored limit 0 as "absent" and runs with
    LIMIT 10. *)
Lemma semanticSearch_half_limit_differs :
  embeddingService Examples.envC8 = None
  /\ o_queryVector Examples.optsHalf = None
  /\ semanticSearch Examples.envC8 "tea" Examples.optsHalf
     <> searchNodes Examples.envC8 "tea" Examples.optsHalf.
Proof.
  split; [reflexivity|]; split; [reflexivity|].
  vm_compute; discriminate.
Qed.

Lemma semanticSearch_no_gateway_is_searchNodes_witness :
  embeddingService Examples.envC8 = None
  /\ o_queryVector Examples.optsFive = None
  /\ limit_not_fractional Examples.optsFive = true
  /\ semanticSearch Examples.envC8 "tea" Examples.optsFive
     = searchNodes Examples.envC8 "tea" Examples.optsFive.
Proof.
  split; [reflexivity|]; split; [reflexivity|]; split; [reflexivity|].
  apply semanticSearch_no_gateway_is_searchNodes; reflexivity.
Defined.

End SearchProofs.

(** ** Witnesses of the read and normalisation theorems *)

Lemma getGraphAtTime_includes_iff_valid_witness :
  store_wf Examples.storeAB = true /\
  ((forall e, In e (g_entities (getGraphAtTime 2 Examples.storeAB)) <->
     In e (ents Examples.storeAB) /\ (e_validFrom e <= 2)%Z
     /\ (e_validTo e = None \/ exists v, e_validTo e = Some v /\ (2 < v)%Z)) /\
   (forall r, (exists f to, In (f, to, r) (g_relations (getGraphAtTime 2 Examples.storeAB))) <->
     In r (rels Examples.storeAB) /\ (r_validFrom r <= 2)%Z
     /\ (r_validTo r = None \/ exists v, r_validTo r = Some v /\ (2 < v)%Z))).
Proof.
  split; [vm_compute; reflexivity|].
  apply getGraphAtTime_includes_iff_valid; vm_compute; reflexivity.
Defined.

Lemma generateEmbedding_unit_norm_witness :
  Embedding.generateEmbedding (Some [3; 4]%R)
    = Done (Embedding.normalizeVector [3; 4]%R)
  /\ Embedding.magnitude (Embedding.normalizeVector [3; 4]%R) = 1%R.
Proof.
  split; [reflexivity|].
  apply (generateEmbedding_unit_norm (Some [3; 4]%R)); reflexivity.
Defined.

(** ** Missing entities and relations *)

Section Missing.
Local Open Scope string_scope.

(** C3 (as amended): [addObservations] skips an item whose entity has no
    current version and carries on with the rest of the batch on the same
    store, whereas [updateRelation] on an edge with no current version
    throws "Relation not found" to the caller. *)
Theorem missing_items_skip_or_throw (now : Z) (n : string) (cs : list string)
    (rest : list (string * list string)) (acc : list (string * list string))
    (ri : RelationInput) (s : Store)
    (Hn : current_named s n = [])
    (Hr : current_edges_between s (ri_from ri) (ri_to ri) (ri_relationType ri) = []) :
  addObservations_loop now ((n, cs) :: rest) s acc = addObservations_loop now rest s acc
  /\ updateRelation now ri s
     = Thrown ("Relation not found: " ++ ri_from ri ++ " -> " ++ ri_to ri
               ++ " (" ++ ri_relationType ri ++ ")")%string.
Proof.
  split.
  - simpl; unfold addObservations_item.
    destruct (String.eqb n "" || match cs with [] => true | _ => false end); [reflexivity|].
    rewrite Hn; reflexivity.
  - unfold updateRelation; rewrite Hr; reflexivity.
Qed.

Lemma missing_items_skip_or_throw_witness :
  current_named emptyStore "A" = []
  /\ current_edges_between emptyStore "A" "B" "relates_to" = []
  /\ addObservations_loop 1 [("A", ["x"]); ("B", ["y"])] emptyStore []
     = addObservations_loop 1 [("B", ["y"])] emptyStore []
  /\ updateRelation 1 (simpleRelation "A" "B" "relates_to") emptyStore
     = Thrown ("Relation not found: A -> B (relates_to)")%string.
Proof.
  split; [reflexivity|]; split; [reflexivity|].
  apply (missing_items_skip_or_throw 1 "A" ["x"] [("B", ["y"])] [] (simpleRelation "A" "B" "relates_to") emptyStore); reflexivity.
Defined.

(** C3 does not hold for [updateRelation]: an unknown edge is an error
    for the caller, not a skipped item. *)
Lemma updateRelation_unknown_throws :
  updateRelation 5 (simpleRelation "A" "B" "unknown") Examples.storeAB
  = Thrown ("Relation not found: A -> B (unknown)")%string.
Proof. vm_compute; reflexivity. Qed.

(** C6 (code evaluated at the failing inputs): the existence check of
    [createRelations] matches any version of the endpoints.  In the
    restored snapshot A has no current version, yet the edge is created;
    and after an observation append on A, [createRelations] creates a
    current edge from each version of A, the superseded one included. *)
Theorem createRelations_links_non_current :
  current_named Examples.storeSnap "A" = []
  /\ map (fun r => (r_from r, r_to r, r_validTo r))
       (rels (fst (createRelations 5 [simpleRelation "A" "B" "relates_to"] Examples.storeSnap)))
     = [(0%nat, 1%nat, None)]
  /\ map (fun e => (e_id e, e_validTo e)) (named Examples.storeAB "A")
     = [(0%nat, Some 2%Z); (2%nat, None)]
  /\ map (fun r => (r_from r, r_to r, r_validTo r)) (rels Examples.storeAB)
     = [(0%nat, 1%nat, None); (2%nat, 1%nat, None)].
Proof. vm_compute; repeat split. Qed.

End Missing.

(** ** The current-version invariant *)

Section Versions.

Lemma mem_str_In (x : string) (l : list string) : mem_str x l = true <-> In x l.
Proof.
  unfold mem_str; rewrite existsb_exists; split.
  - intros (y & Hy & E); apply String.eqb_eq in E; subst; exact Hy.
  - intros H; exists x; split; [exact H | apply String.eqb_refl].
Qed.

Lemma filter_none {A : Type} (P : A -> bool) (l : list A) :
  (forall x, In x l -> P x = false) -> filter P l = [].
Proof.
  induction l as [|a l IH]; intros H; [reflexivity|].
  simpl; rewrite (H a (or_introl eq_refl)); apply IH; intros x Hx; apply H; right; exact Hx.
Qed.

Lemma length_le1_eq {A : Type} (l : list A) (a b : A) :
  (List.length l <= 1)%nat -> In a l -> In b l -> a = b.
Proof.
  destruct l as [|x [|y r]]; simpl; intros Hl Ha Hb; try lia; try contradiction.
  destruct Ha as [<-|[]], Hb as [<-|[]]; reflexivity.
Qed.

Lemma close_count (m : string) (i : nat) (now : Z) (l : list Entity) :
  (List.length (filter (cnb m) (map (close_row i now) l)) <= List.length (filter (cnb m) l))%nat.
Proof.
  induction l as [|a l IH]; cbn [map filter]; [lia|].
  unfold close_row at 1; destruct (Nat.eqb (e_id a) i).
  - replace (cnb m (set_e_validTo now a)) with false
      by (unfold cnb, is_current; simpl; rewrite andb_false_r; reflexivity).
    destruct (cnb m a); cbn [List.length]; lia.
  - destruct (cnb m a); cbn [List.length]; lia.
Qed.

Lemma close_kill (m : string) (cur : Entity) (now : Z) (l : list Entity) :
  (List.length (filter (cnb m) l) <= 1)%nat -> In cur (filter (cnb m) l) ->
  filter (cnb m) (map (close_row (e_id cur) now) l) = [].
Proof.
  intros Hle Hin; apply filter_none; intros x Hx.
  apply in_map_iff in Hx as (e & <- & He).
  unfold close_row; destruct (Nat.eqb (e_id e) (e_id cur)) eqn:Hid.
  - unfold cnb, is_current; simpl; apply andb_false_r.
  - destruct (cnb m e) eqn:Hc; [|reflexivity].
    assert (e = cur) as ->.
    { apply (length_le1_eq _ _ _ Hle); [apply filter_In; auto | exact Hin]. }
    rewrite Nat.eqb_refl in Hid; discriminate.
Qed.

(** Closing the current row of a name and appending its successor keeps
    at most one current row per name. *)
Lemma replace_keeps_one (l : list Entity) (cur row : Entity) (now : Z) :
  (forall m, List.length (filter (cnb m) l) <= 1)%nat ->
  In cur l -> is_current cur = true -> e_name row = e_name cur ->
  forall m, (List.length (filter (cnb m) (map (close_row (e_id cur) now) l ++ [row])) <= 1)%nat.
Proof.
  intros Hone Hin Hc Hn m; rewrite filter_app, length_app.
  destruct (String.eqb (e_name cur) m) eqn:Hm.
  - rewrite (close_kill m cur now l (Hone m)).
    + cbn [filter]; destruct (cnb m row); cbn [List.length]; lia.
    + apply filter_In; split; [exact Hin|]; unfold cnb; rewrite Hm, Hc; reflexivity.
  - assert (cnb m row = false) as Hr by (unfold cnb; rewrite Hn, Hm; reflexivity).
    cbn [filter]; rewrite Hr; cbn [List.length].
    pose proof (close_count m (e_id cur) now l); specialize (Hone m); lia.
Qed.

Lemma one_current_ents (s s' : Store) : ents s' = ents s -> one_current s -> one_current s'.
Proof. intros He H n; unfold current_named; rewrite He; apply H. Qed.

Lemma recreate_out_ents (now : Z) (i : nat) (rs : list Relationship) (s : Store) :
  ents (recreate_out now i rs s) = ents s.
Proof. revert s; induction rs as [|r rs IH]; intros s; [reflexivity|]; simpl; rewrite IH; reflexivity. Qed.

Lemma recreate_in_ents (now : Z) (i : nat) (rs : list Relationship) (s : Store) :
  ents (recreate_in now i rs s) = ents s.
Proof. revert s; induction rs as [|r rs IH]; intros s; [reflexivity|]; simpl; rewrite IH; reflexivity. Qed.

Lemma current_named_head (s : Store) (n : string) (cur : Entity) (l : list Entity) :
  current_named s n = cur :: l -> In cur (ents s) /\ is_current cur = true /\ e_name cur = n.
Proof.
  intros H; assert (In cur (current_named s n)) as Hin by (rewrite H; left; reflexivity).
  unfold current_named in Hin; apply filter_In in Hin as [Hin Hb].
  apply andb_true_iff in Hb as [Hn Hc]; apply String.eqb_eq in Hn; auto.
Qed.

Lemma addObservations_item_one_current (now : Z) (n : string) (cs : list string) (s : Store) :
  one_current s -> one_current (fst (addObservations_item now n cs s)).
Proof.
  intros H; unfold addObservations_item.
  destruct (String.eqb n "" || _); [exact H|].
  destruct (current_named s n) as [|cur l] eqn:Hcn; [exact H|].
  destruct (current_named_head s n cur l Hcn) as (Hin & Hc & Hn).
  cbn [uuidv4 fst].
  destruct (not_in cs (e_observations cur)) as [|o os]; cbn [fst].
  - exact H.
  - intros m; unfold current_named.
    rewrite recreate_in_ents, recreate_out_ents.
    apply (replace_keeps_one (ents s) cur); auto.
Qed.

Lemma deleteObservations_item_one_current (now : Z) (n : string) (ds : list string) (s : Store) :
  one_current s -> one_current (deleteObservations_item now n ds s).
Proof.
  intros H; unfold deleteObservations_item.
  destruct (String.eqb n "" || _); [exact H|].
  destruct (current_named s n) as [|cur l] eqn:Hcn; [exact H|].
  destruct (current_named_head s n cur l Hcn) as (Hin & Hc & Hn).
  cbn [uuidv4]; intros m; unfold current_named.
  apply (replace_keeps_one (ents s) cur); auto.
Qed.

Lemma addObservations_loop_one_current (now : Z) (obs : list (string * list string))
    (s : Store) (acc : list (string * list string)) :
  one_current s -> one_current (fst (addObservations_loop now obs s acc)).
Proof.
  revert s acc; induction obs as [|[n cs] rest IH]; intros s acc H; [exact H|].
  cbn [addObservations_loop].
  pose proof (addObservations_item_one_current now n cs s H) as H1.
  destruct (addObservations_item now n cs s) as [s1 r]; apply IH; exact H1.
Qed.

Lemma deleteObservations_one_current (now : Z) (dels : list (string * list string)) (s : Store) :
  one_current s -> one_current (deleteObservations now dels s).
Proof.
  revert s; induction dels as [|[n ds] rest IH]; intros s H; [exact H|].
  cbn [deleteObservations]; apply IH, deleteObservations_item_one_current, H.
Qed.

Lemma createRelations_loop_ents (now : Z) (rs : list RelationInput) (s : Store)
    (acc : list Relationship) :
  ents (fst (createRelations_loop now rs s acc)) = ents s.
Proof.
  revert s acc; induction rs as [|ri rest IH]; intros s acc; [reflexivity|].
  cbn [createRelations_loop uuidv4].
  destruct (negb _); rewrite IH; reflexivity.
Qed.

Lemma updateRelation_ents (now : Z) (ri : RelationInput) (s s' : Store) :
  updateRelation now ri s = Done s' -> ents s' = ents s.
Proof.
  unfold updateRelation; destruct (current_edges_between _ _ _ _); [discriminate|].
  intros E; injection E as <-; reflexivity.
Qed.

Lemma deleteRelations_ents (rs : list RelationInput) (s : Store) :
  ents (deleteRelations rs s) = ents s.
Proof.
  unfold deleteRelations; revert s; induction rs as [|ri rest IH]; intros s; [reflexivity|].
  cbn [fold_left]; rewrite IH; reflexivity.
Qed.

Lemma filter_filter_le {A : Type} (P Q : A -> bool) (l : list A) :
  (List.length (filter P (filter Q l)) <= List.length (filter P l))%nat.
Proof.
  induction l as [|a l IH]; [cbn; lia|].
  cbn [filter]; destruct (Q a), (P a) eqn:EP; cbn [filter List.length]; try rewrite EP;
    cbn [List.length]; lia.
Qed.

Lemma deleteEntities_one_current (names : list string) (s : Store) :
  one_current s -> one_current (deleteEntities names s).
Proof.
  intros H m; unfold deleteEntities; destruct names as [|x xs]; [apply H|].
  unfold current_named; cbn [ents].
  eapply Nat.le_trans; [apply filter_filter_le | apply H].
Qed.

Lemma current_named_add_ents (s : Store) (es : list Entity) (m : string) :
  current_named (add_ents s es) m = current_named s m ++ filter (cnb m) es.
Proof. unfold current_named, add_ents; cbn [ents]; rewrite filter_app; reflexivity. Qed.

Lemma createEntities_loop_one_current (now : Z) (es : list EntityInput) (s : Store)
    (acc : list Entity) :
  one_current s -> distinct_names (map ei_name es) = true ->
  (forall ei, In ei es -> current_named s (ei_name ei) = []) ->
  one_current (fst (createEntities_loop now es s acc)).
Proof.
  revert s acc; induction es as [|ei es IH]; intros s acc H Hd Hf; [exact H|].
  cbn [createEntities_loop uuidv4].
  cbn [map distinct_names] in Hd; apply andb_true_iff in Hd as [Hnm Hd].
  apply IH; [ | exact Hd | ].
  - intros m; rewrite current_named_add_ents; change (current_named _ m) with (current_named s m).
    cbn [filter]; unfold cnb at 1; cbn [new_entity_row e_name is_current e_validTo is_null].
    rewrite andb_true_r; destruct (String.eqb (ei_name ei) m) eqn:E.
    + apply String.eqb_eq in E; subst m; rewrite (Hf ei (or_introl eq_refl)); cbn; lia.
    + rewrite app_nil_r; apply H.
  - intros ej Hej; rewrite current_named_add_ents; change (current_named _ (ei_name ej))
      with (current_named s (ei_name ej)).
    rewrite (Hf ej (or_intror Hej)); cbn [filter app]; unfold cnb.
    cbn [new_entity_row e_name is_current e_validTo is_null]; rewrite andb_true_r.
    destruct (String.eqb (ei_name ei) (ei_name ej)) eqn:E; [|reflexivity].
    apply String.eqb_eq in E; apply negb_true_iff in Hnm.
    assert (mem_str (ei_name ei) (map ei_name es) = true) as Hm.
    { apply mem_str_In; rewrite E; apply in_map; exact Hej. }
    rewrite Hm in Hnm; discriminate.
Qed.

Lemma run_op_one_current (s : Store) (o : Op) :
  one_current s -> op_fresh s o = true -> one_current (run_op s o).
Proof.
  intros H Hf; destruct o as [now es|now rs|now obs|now dels|now ri|names|rs]; cbn [run_op].
  - unfold createEntities; destruct es as [|e es']; [exact H|].
    cbn [op_fresh] in Hf; unfold fresh_batch in Hf; apply andb_true_iff in Hf as [Hd Hc].
    apply createEntities_loop_one_current; [exact H | exact Hd|].
    intros ei Hei; rewrite forallb_forall in Hc; specialize (Hc ei Hei).
    destruct (current_named s (ei_name ei)); [reflexivity | discriminate].
  - unfold createRelations; destruct rs; [exact H|].
    apply (one_current_ents s); [apply createRelations_loop_ents | exact H].
  - unfold addObservations; destruct obs; [exact H|].
    apply addObservations_loop_one_current, H.
  - apply deleteObservations_one_current, H.
  - destruct (updateRelation now ri s) as [s'|msg] eqn:E; [|exact H].
    apply (one_current_ents s); [apply (updateRelation_ents now ri s s' E) | exact H].
  - apply deleteEntities_one_current, H.
  - apply (one_current_ents s); [apply deleteRelations_ents | exact H].
Qed.

Lemma one_current_b_sound (s : Store) : one_current_b s = true -> one_current s.
Proof.
  intros H n; destruct (current_named s n) as [|e l] eqn:E; [cbn; lia|].
  destruct (current_named_head s n e l E) as (Hin & _ & Hn).
  unfold one_current_b in H; rewrite forallb_forall in H; specialize (H e Hin).
  apply Nat.leb_le in H; rewrite Hn, E in H; exact H.
Qed.

(** C2 (as amended): starting from a store with at most one current row
    per name, any sequence of createEntities, createRelations,
    addObservations, deleteObservations, updateRelation, deleteEntities and
    deleteRelations keeps at most one current row per name, provided each
    createEntities batch names pairwise distinct entities that have no
    current row yet. *)
Theorem run_ops_one_current (s : Store) (ops : list Op)
    (Hs : one_current_b s = true) (Hf : ops_fresh s ops = true) :
  one_current (run_ops s ops).
Proof.
  apply one_current_b_sound in Hs; unfold run_ops.
  revert s Hs Hf; induction ops as [|o ops IH]; intros s Hs Hf; [exact Hs|].
  cbn [ops_fresh] in Hf; apply andb_true_iff in Hf as [Ho Hf].
  cbn [fold_left]; apply IH; [apply run_op_one_current; assumption | exact Hf].
Qed.

Lemma run_ops_one_current_witness :
  one_current_b emptyStore = true /\ ops_fresh emptyStore Examples.opsMixed = true
  /\ one_current (run_ops emptyStore Examples.opsMixed).
Proof.
  split; [reflexivity|]; split; [vm_compute; reflexivity|].
  apply run_ops_one_current; [reflexivity | vm_compute; reflexivity].
Defined.

(** C2 does not hold for every sequence: creating the same entity twice
    leaves two current rows for its name. *)
Lemma createEntities_twice_two_current :
  List.length (current_named (run_ops emptyStore Examples.opsTwice) "A") = 2%nat
  /\ ~ one_current (run_ops emptyStore Examples.opsTwice).
Proof.
  assert (List.length (current_named (run_ops emptyStore Examples.opsTwice) "A") = 2%nat) as E
    by (vm_compute; reflexivity).
  split; [exact E|]; intros H; specialize (H "A"%string); rewrite E in H; lia.
Qed.

End Versions.

Section Idempotence.

Local Open Scope string_scope.

Lemma addObservations_single (now : Z) (n : string) (cs : list string) (s : Store) :
  addObservations now [(n, cs)] s =
  (fst (addObservations_item now n cs s),
   match snd (addObservations_item now n cs s) with Some x => [x] | None => [] end).
Proof. unfold addObservations; cbn; destruct (addObservations_item now n cs s) as [s1 [x|]]; reflexivity. Qed.

Lemma not_in_covered (cs ex : list string) :
  (forall c, In c cs -> In c ex) -> not_in cs ex = [].
Proof.
  intros H; apply filter_none; intros c Hc; apply negb_false_iff, mem_str_In, H, Hc.
Qed.

Lemma not_in_nil_covered (cs ex : list string) :
  not_in cs ex = [] -> forall c, In c cs -> In c ex.
Proof.
  intros H c Hc; destruct (mem_str c ex) eqn:Hm; [apply mem_str_In, Hm|].
  assert (In c (not_in cs ex)) as Hin
    by (apply filter_In; split; [exact Hc | rewrite Hm; reflexivity]).
  rewrite H in Hin; contradiction.
Qed.

(** After one call the current row of the name holds every content item. *)
Lemma addObservations_item_covers (now : Z) (n : string) (cs : list string) (s : Store) :
  one_current s -> String.eqb n "" = false -> cs <> [] -> current_named s n <> [] ->
  exists cur' l', current_named (fst (addObservations_item now n cs s)) n = cur' :: l' /\
                  (forall c, In c cs -> In c (e_observations cur')).
Proof.
  intros H Hn Hcs Hne; unfold addObservations_item; rewrite Hn.
  destruct cs as [|c0 cs']; [contradiction|]; cbn [orb].
  destruct (current_named s n) as [|cur l] eqn:Hcn; [contradiction|].
  destruct (current_named_head s n cur l Hcn) as (Hin & Hc & Hnm).
  cbn [uuidv4 fst].
  destruct (not_in (c0 :: cs') (e_observations cur)) as [|o os] eqn:Hni; cbn [fst].
  - exists cur, l; split; [exact Hcn | apply not_in_nil_covered, Hni].
  - eexists; exists []; split.
    + unfold current_named; rewrite recreate_in_ents, recreate_out_ents.
      cbn [ents add_ents close_entity_and_edges close_entity]; rewrite filter_app.
      pose proof (close_kill n cur now (ents s) (H n)) as HK.
      assert (In cur (filter (cnb n) (ents s))) as Hcur
        by (apply filter_In; split; [exact Hin | unfold cnb; rewrite Hnm, String.eqb_refl, Hc; reflexivity]).
      specialize (HK Hcur); unfold cnb, close_row in HK; rewrite HK.
      cbn [filter app e_name e_validTo]; rewrite Hnm, String.eqb_refl; reflexivity.
    + cbn [e_observations]; intros c Hcin; apply in_or_app.
      destruct (mem_str c (e_observations cur)) eqn:Hm; [left; apply mem_str_In, Hm|].
      right; rewrite <- Hni; apply filter_In; split; [exact Hcin | rewrite Hm; reflexivity].
Qed.

(** A call whose contents are all present reports an empty addition and
    leaves the rows unchanged. *)
Lemma addObservations_item_covered (now : Z) (n : string) (cs : list string) (s : Store)
    (cur : Entity) (l : list Entity) :
  String.eqb n "" = false -> cs <> [] -> current_named s n = cur :: l ->
  (forall c, In c cs -> In c (e_observations cur)) ->
  snd (addObservations_item now n cs s) = Some (n, []) /\
  ents (fst (addObservations_item now n cs s)) = ents s /\
  rels (fst (addObservations_item now n cs s)) = rels s.
Proof.
  intros Hn Hcs Hcn Hcov; unfold addObservations_item; rewrite Hn.
  destruct cs as [|c0 cs']; [contradiction|]; cbn [orb].
  rewrite Hcn; cbn [uuidv4]; rewrite (not_in_covered _ _ Hcov); auto.
Qed.

(** C4 (as amended): for a name with a current row, in a store with at
    most one current row per name, and a non-empty name and non-empty
    contents list, a second [addObservations] with the same contents
    reports [addedObservations = []] for that name and changes neither the
    entity rows nor the edge rows. *)
Theorem addObservations_twice_adds_nothing (now now' : Z) (n : string) (cs : list string)
    (s : Store)
    (Hs : one_current_b s = true) (Hn : String.eqb n "" = false)
    (Hcs : (0 < List.length cs)%nat) (Hcur : (0 < List.length (current_named s n))%nat) :
  let s1 := fst (addObservations now [(n, cs)] s) in
  snd (addObservations now' [(n, cs)] s1) = [(n, [])] /\
  ents (fst (addObservations now' [(n, cs)] s1)) = ents s1 /\
  rels (fst (addObservations now' [(n, cs)] s1)) = rels s1.
Proof.
  intros s1; subst s1; rewrite !addObservations_single; cbn [fst snd].
  apply one_current_b_sound in Hs.
  assert (cs <> []) as Hcs' by (intros ->; cbn in Hcs; lia).
  assert (current_named s n <> []) as Hne by (intros E; rewrite E in Hcur; cbn in Hcur; lia).
  destruct (addObservations_item_covers now n cs s Hs Hn Hcs' Hne) as (cur' & l' & Hcn & Hcov).
  destruct (addObservations_item_covered now' n cs (fst (addObservations_item now n cs s))
              cur' l' Hn Hcs' Hcn Hcov) as (E1 & E2 & E3).
  rewrite E1; auto.
Qed.

Lemma addObservations_twice_adds_nothing_witness :
  one_current_b Examples.storeA = true /\
  (let s1 := fst (addObservations 4 [("A", ["o2"; "o3"])] Examples.storeA) in
   snd (addObservations 5 [("A", ["o2"; "o3"])] s1) = [("A", [])] /\
   ents (fst (addObservations 5 [("A", ["o2"; "o3"])] s1)) = ents s1 /\
   rels (fst (addObservations 5 [("A", ["o2"; "o3"])] s1)) = rels s1).
Proof.
  split; [vm_compute; reflexivity|].
  apply addObservations_twice_adds_nothing;
    [vm_compute; reflexivity | reflexivity | cbn; lia | vm_compute; lia].
Defined.

(** C4 fails for an empty contents list: the item is skipped, so the
    second call reports no entry at all for the entity. *)
Lemma addObservations_empty_contents_no_entry :
  snd (addObservations 5 [("A", [])] (fst (addObservations 4 [("A", [])] Examples.storeA))) = [].
Proof. vm_compute; reflexivity. Qed.

End Idempotence.

(** * Further properties of the code *)

(** ** Batch embeddings *)

Section BatchEmbeddings.
Local Open Scope R_scope.
Import Embedding.

Lemma normalizeVector_unit_any (v : list R) : magnitude (normalizeVector v) = 1.
Proof.
  destruct v as [|x rest].
  - unfold normalizeVector, magnitude, sum_squares; cbn [fold_left].
    rewrite sqrt_0; destruct (Rlt_dec 0 0) as [H|_]; [lra|].
    cbn [fold_left]; replace (0 + 1 * 1) with 1 by ring; apply sqrt_1.
  - apply normalizeVector_unit; discriminate.
Qed.

Lemma normalizeVector_length (v : list R) :
  v <> [] -> List.length (normalizeVector v) = List.length v.
Proof.
  intros Hv; unfold normalizeVector; destruct (Rlt_dec 0 (magnitude v)).
  - apply length_map.
  - destruct v; [contradiction | reflexivity].
Qed.

Lemma js_slice_block {A : Type} (l : list A) (a d : Z) :
  (0 <= a)%Z -> (0 <= d)%Z -> (a + d <= Z.of_nat (List.length l))%Z ->
  List.length (js_slice l a (a + d)) = Z.to_nat d.
Proof.
  intros Ha Hd Hl; unfold js_slice.
  destruct (Z.ltb_spec a 0) as [H|_]; [lia|].
  destruct (Z.ltb_spec (a + d) 0) as [H|_]; [lia|].
  rewrite Z.min_l by lia; rewrite Z.min_l by lia.
  rewrite length_firstn, length_skipn; lia.
Qed.

Lemma js_slice_past_end {A : Type} (l : list A) (a d : Z) :
  (0 <= a)%Z -> (0 <= d)%Z -> (Z.of_nat (List.length l) <= a)%Z ->
  js_slice l a (a + d) = [].
Proof.
  intros Ha Hd Hl; unfold js_slice.
  destruct (Z.ltb_spec a 0) as [H|_]; [lia|].
  destruct (Z.ltb_spec (a + d) 0) as [H|_]; [lia|].
  rewrite Z.min_r by lia; rewrite Z.min_r by lia.
  rewrite Z.sub_diag; reflexivity.
Qed.

(** [generateEmbeddings] returns one vector per text, each of L2 norm 1
    (a slice the output does not cover becomes the unit vector [[1]]). *)
Theorem generateEmbeddings_count_unit (dimensions : Z) (texts : list string)
    (out : option (list R)) (vs : list (list R))
    (H : generateEmbeddings dimensions texts out = KG.Done vs) :
  List.length vs = List.length texts /\ Forall (fun v => magnitude v = 1) vs.
Proof.
  destruct out as [data|]; cbn in H; [|discriminate].
  injection H as <-; split.
  - rewrite length_map, length_seq; reflexivity.
  - apply Forall_forall; intros v Hv; apply in_map_iff in Hv as (i & <- & _).
    apply normalizeVector_unit_any.
Qed.

(** When the pipeline output holds [dimensions] numbers per text, every
    vector [generateEmbeddings] returns has exactly [dimensions]
    components. *)
Theorem generateEmbeddings_dimensions (dimensions : Z) (texts : list string)
    (data : list R) (vs : list (list R))
    (Hd : (0 < dimensions)%Z)
    (Hlen : Z.of_nat (List.length data) = (Z.of_nat (List.length texts) * dimensions)%Z)
    (H : generateEmbeddings dimensions texts (Some data) = KG.Done vs) :
  Forall (fun v => List.length v = Z.to_nat dimensions) vs.
Proof.
  cbn in H; injection H as <-.
  apply Forall_forall; intros v Hv; apply in_map_iff in Hv as (i & <- & Hi).
  apply in_seq in Hi.
  assert (Z.of_nat i * dimensions + dimensions <= Z.of_nat (List.length data))%Z.
  { rewrite Hlen; nia. }
  rewrite normalizeVector_length.
  - apply js_slice_block; lia.
  - intros E; pose proof (js_slice_block data (Z.of_nat i * dimensions) dimensions) as B.
    rewrite E in B; cbn in B; lia.
Qed.

(** A text whose block lies beyond the end of the pipeline output gets the
    vector [[1]]; no error is raised. *)
Theorem generateEmbeddings_short_output (dimensions : Z) (texts : list string)
    (data : list R) (vs : list (list R)) (i : nat)
    (Hd : (0 <= dimensions)%Z)
    (H : generateEmbeddings dimensions texts (Some data) = KG.Done vs)
    (Hi : (i < List.length texts)%nat)
    (Hshort : (Z.of_nat (List.length data) <= Z.of_nat i * dimensions)%Z) :
  nth i vs [] = [1].
Proof.
  cbn in H; injection H as <-.
  match goal with |- nth i (map ?f _) [] = _ => set (g := f) end.
  rewrite nth_indep with (d' := g 0%nat) by (rewrite length_map, length_seq; exact Hi).
  rewrite map_nth, seq_nth by exact Hi; unfold g; cbn [Nat.add].
  rewrite js_slice_past_end by nia.
  unfold normalizeVector, magnitude, sum_squares; cbn [fold_left].
  rewrite sqrt_0; destruct (Rlt_dec 0 0) as [Hc|_]; [lra | reflexivity].
Qed.

End BatchEmbeddings.

(** ** The local service configuration and the service factory *)

Section FactoryProofs.
Import Factory.
Local Open Scope string_scope.

Lemma js_or_Z_nonzero (o : option Z) (d : Z) : d <> 0%Z -> js_or_Z o d <> 0%Z.
Proof.
  intros Hd; destruct o as [v|]; cbn; [|exact Hd].
  destruct (Z.eqb_spec v 0); [exact Hd | assumption].
Qed.

(** The resolved [dimensions] of a [LocalEmbeddingService] is never 0: a
    configured non-zero value is kept, otherwise the model table's value,
    otherwise 768. *)
Theorem newLocalEmbeddingService_dimensions (config : LocalEmbeddingConfig) :
  ls_dimensions (newLocalEmbeddingService config) <> 0%Z /\
  (forall d, lc_dimensions config = Some d -> d <> 0%Z ->
     ls_dimensions (newLocalEmbeddingService config) = d) /\
  (lc_dimensions config = None ->
     ls_dimensions (newLocalEmbeddingService config)
     = match SUPPORTED_MODELS (ls_model (newLocalEmbeddingService config)) with
       | Some mc => mc_dimensions mc
       | None => 768%Z
       end).
Proof.
  unfold newLocalEmbeddingService; cbn [ls_dimensions ls_model].
  set (m := js_or_str (lc_model config) "Xenova/bge-base-en-v1.5").
  assert (forall mc, SUPPORTED_MODELS m = Some mc -> mc_dimensions mc <> 0%Z) as Hmc.
  { intros mc E; unfold SUPPORTED_MODELS in E.
    repeat match type of E with
           | (if ?b then _ else _) = _ => destruct b
           end; try discriminate; injection E as <-; cbn; lia. }
  split; [|split].
  - apply js_or_Z_nonzero, js_or_Z_nonzero; lia.
  - intros d E Hd; rewrite E; cbn; destruct (Z.eqb_spec d 0); [contradiction | reflexivity].
  - intros E; rewrite E; cbn.
    destruct (SUPPORTED_MODELS m) as [mc|] eqn:Em; cbn; [|reflexivity].
    destruct (Z.eqb_spec (mc_dimensions mc) 0) as [H0|]; [exfalso; exact (Hmc mc eq_refl H0) | reflexivity].
Qed.

Section Registry.
Context {Service : Type}.





End Registry.

Section Builtins.
Context {Service : Type}.
Context (newDefault : option Z -> Outcome Service).
Context (newOpenAI : string -> option string -> option Z -> Outcome Service).
Context (newLocal : LocalEmbeddingService -> Service).




(** Without mock embeddings and without a non-empty [OPENAI_API_KEY],
    [createFromEnvironment] builds the local service exactly when
    [EMBEDDING_PROVIDER] is [local] or [auto] (in any letter case, [auto]
    also when unset or empty), with the model [LOCAL_EMBEDDING_MODEL] or
    [Xenova/bge-base-en-v1.5]; any other value, [openai] included, gives
    the default service. *)
Theorem createFromEnvironment_without_key (env : ProcessEnv)
    (Hmock : MOCK_EMBEDDINGS env <> Some "true")
    (Hkey : js_or_null_str (OPENAI_API_KEY env) = None) :
  let p := js_or_str (option_map toLowerCase (EMBEDDING_PROVIDER env)) "auto" in
  createFromEnvironment newDefault newOpenAI newLocal env
  = if String.eqb p "local" || String.eqb p "auto" then
      Done (newLocal (newLocalEmbeddingService
              (mkLocalConfig (Some (js_or_str (LOCAL_EMBEDDING_MODEL env) "Xenova/bge-base-en-v1.5"))
                 None None None)))
    else newDefault None.
Proof.
  intros p; unfold createFromEnvironment; fold p.
  destruct (MOCK_EMBEDDINGS env) as [v|] eqn:Em.
  - destruct (String.eqb_spec v "true") as [->|_]; [contradiction|].
    cbv beta iota.
    destruct (String.eqb p "local"); [reflexivity|]; cbn [orb].
    destruct (_ || _); rewrite ?Hkey; reflexivity.
  - cbv beta iota.
    destruct (String.eqb p "local"); [reflexivity|]; cbn [orb].
    destruct (_ || _); rewrite ?Hkey; reflexivity.
Qed.

End Builtins.

End FactoryProofs.

(** ** Edges always hang between stored nodes *)

Section StoreWf.

Lemma find_id_some (s : Store) (i : nat) :
  (exists e, find (fun e => Nat.eqb (e_id e) i) (ents s) = Some e) <-> has_node s i.
Proof.
  split.
  - intros (e & He); apply find_some in He as [Hin Hid]; apply Nat.eqb_eq in Hid.
    exists e; auto.
  - intros (e & Hin & Hid).
    destruct (find (fun e => Nat.eqb (e_id e) i) (ents s)) as [e'|] eqn:Hf;
      [exists e'; reflexivity|].
    pose proof (find_none _ _ Hf e Hin) as H; cbn in H.
    rewrite Hid, Nat.eqb_refl in H; discriminate.
Qed.

Lemma edge_ends_some (s : Store) (r : Relationship) :
  (exists ft, edge_ends s r = Some ft) <-> has_node s (r_from r) /\ has_node s (r_to r).
Proof.
  rewrite <- !find_id_some; unfold edge_ends, node_name.
  destruct (find (fun e => Nat.eqb (e_id e) (r_from r)) (ents s)) as [a|];
  destruct (find (fun e => Nat.eqb (e_id e) (r_to r)) (ents s)) as [b|]; cbn [option_map];
  split; intros H.
  - split; eexists; reflexivity.
  - eexists; reflexivity.
  - destruct H as [ft H]; discriminate.
  - destruct H as [_ [x H]]; discriminate.
  - destruct H as [ft H]; discriminate.
  - destruct H as [[x H] _]; discriminate.
  - destruct H as [ft H]; discriminate.
  - destruct H as [[x H] _]; discriminate.
Qed.

Lemma store_wf_iff (s : Store) :
  store_wf s = true <-> forall r, In r (rels s) -> has_node s (r_from r) /\ has_node s (r_to r).
Proof.
  unfold store_wf; rewrite forallb_forall; split; intros H r Hr; specialize (H r Hr).
  - apply edge_ends_some; destruct (edge_ends s r) eqn:E; [eexists; reflexivity | discriminate].
  - apply edge_ends_some in H as [ft E]; rewrite E; reflexivity.
Qed.

Lemma wf_step (s s' : Store) :
  (forall i, has_node s i -> has_node s' i) ->
  (forall r', In r' (rels s') ->
     (exists r, In r (rels s) /\ r_from r = r_from r' /\ r_to r = r_to r')
     \/ (has_node s' (r_from r') /\ has_node s' (r_to r'))) ->
  store_wf s = true -> store_wf s' = true.
Proof.
  intros Hn Hr Hwf; rewrite store_wf_iff in *; intros r' Hin.
  destruct (Hr r' Hin) as [(r & Hin0 & Hf & Ht)|H]; [|exact H].
  rewrite <- Hf, <- Ht; destruct (Hwf r Hin0); auto.
Qed.

Lemma create_edges_ends (froms tos : list Entity) (mk : nat -> nat -> Relationship)
    (r : Relationship) :
  (forall a b, r_from (mk a b) = a /\ r_to (mk a b) = b) ->
  In r (create_edges froms tos mk) ->
  exists f t, In f froms /\ In t tos /\ r_from r = e_id f /\ r_to r = e_id t.
Proof.
  intros Hmk Hin; unfold create_edges in Hin; apply in_flat_map in Hin as (f & Hf & Hin).
  apply in_map_iff in Hin as (t & <- & Ht); destruct (Hmk (e_id f) (e_id t)) as [E1 E2].
  exists f, t; auto.
Qed.

Lemma wf_add_ents (s : Store) (es : list Entity) :
  store_wf s = true -> store_wf (add_ents s es) = true.
Proof.
  apply wf_step.
  - intros i (e & He & Hi); exists e; split; [apply in_or_app; left; exact He | exact Hi].
  - intros r' Hin; left; exists r'; auto.
Qed.

Lemma wf_map_rels (s : Store) (g : Relationship -> Relationship) (n : nat) :
  (forall r, r_from (g r) = r_from r /\ r_to (g r) = r_to r) ->
  store_wf s = true -> store_wf (mkStore (ents s) (map g (rels s)) n) = true.
Proof.
  intros Hg; apply wf_step.
  - intros i H; exact H.
  - intros r' Hin; cbn in Hin; apply in_map_iff in Hin as (r & <- & Hr).
    left; exists r; destruct (Hg r); auto.
Qed.

Lemma wf_filter_rels (s : Store) (p : Relationship -> bool) (n : nat) :
  store_wf s = true -> store_wf (mkStore (ents s) (filter p (rels s)) n) = true.
Proof.
  apply wf_step.
  - intros i H; exact H.
  - intros r' Hin; cbn in Hin; apply filter_In in Hin as [Hr _]; left; exists r'; auto.
Qed.

Lemma wf_close_entity (now : Z) (i : nat) (s : Store) :
  store_wf s = true -> store_wf (close_entity now i s) = true.
Proof.
  apply wf_step.
  - intros j (e & He & Hj).
    exists (if Nat.eqb (e_id e) i then set_e_validTo now e else e); split.
    + cbn; apply in_map_iff; exists e; auto.
    + destruct (Nat.eqb (e_id e) i); exact Hj.
  - intros r' Hin; left; exists r'; auto.
Qed.

Lemma wf_close_entity_and_edges (now : Z) (i : nat) (s : Store) :
  store_wf s = true -> store_wf (close_entity_and_edges now i s) = true.
Proof.
  intros H; unfold close_entity_and_edges.
  apply (wf_map_rels (close_entity now i s)); [|apply wf_close_entity, H].
  intros r; destruct (_ && _); auto.
Qed.

Lemma wf_add_edges (s : Store) (froms tos : list Entity) (mk : nat -> nat -> Relationship) :
  (forall f, In f froms -> In f (ents s)) -> (forall t, In t tos -> In t (ents s)) ->
  (forall a b, r_from (mk a b) = a /\ r_to (mk a b) = b) ->
  store_wf s = true -> store_wf (add_rels s (create_edges froms tos mk)) = true.
Proof.
  intros Hf Ht Hmk; apply wf_step.
  - intros i H; exact H.
  - intros r' Hin; cbn in Hin; apply in_app_or in Hin as [Hin|Hin]; [left; exists r'; auto|].
    right; destruct (create_edges_ends froms tos mk r' Hmk Hin) as (f & t & Hf' & Ht' & E1 & E2).
    rewrite E1, E2; split; [exists f | exists t]; auto.
Qed.

Lemma named_sub (s : Store) (n : string) (e : Entity) : In e (named s n) -> In e (ents s).
Proof. unfold named; intros H; apply filter_In in H; apply H. Qed.

Lemma with_id_sub (s : Store) (i : nat) (e : Entity) : In e (with_id s i) -> In e (ents s).
Proof. unfold with_id; intros H; apply filter_In in H; apply H. Qed.

Lemma wf_createEntities_loop (now : Z) (es : list EntityInput) (s : Store) (acc : list Entity) :
  store_wf s = true -> store_wf (fst (createEntities_loop now es s acc)) = true.
Proof.
  revert s acc; induction es as [|ei rest IH]; intros s acc H; [exact H|].
  cbn [createEntities_loop uuidv4]; apply IH, wf_add_ents, H.
Qed.

Lemma wf_createRelations_loop (now : Z) (rs : list RelationInput) (s : Store)
    (acc : list Relationship) :
  store_wf s = true -> store_wf (fst (createRelations_loop now rs s acc)) = true.
Proof.
  revert s acc; induction rs as [|ri rest IH]; intros s acc H; [exact H|].
  cbn [createRelations_loop uuidv4].
  destruct (negb _); apply IH; [exact H|].
  apply wf_add_edges; [intros f; apply named_sub | intros t; apply named_sub
                      | intros a b; split; reflexivity | exact H].
Qed.

Lemma wf_recreate_out (now : Z) (i : nat) (rs : list Relationship) (s : Store) :
  store_wf s = true -> store_wf (recreate_out now i rs s) = true.
Proof.
  revert s; induction rs as [|rp rest IH]; intros s H; [exact H|].
  cbn [recreate_out uuidv4]; apply IH.
  apply wf_add_edges; [intros f; apply with_id_sub | intros t; apply with_id_sub
                      | intros a b; split; reflexivity | exact H].
Qed.

Lemma wf_recreate_in (now : Z) (i : nat) (rs : list Relationship) (s : Store) :
  store_wf s = true -> store_wf (recreate_in now i rs s) = true.
Proof.
  revert s; induction rs as [|rp rest IH]; intros s H; [exact H|].
  cbn [recreate_in uuidv4]; apply IH.
  apply wf_add_edges; [intros f; apply with_id_sub | intros t; apply with_id_sub
                      | intros a b; split; reflexivity | exact H].
Qed.

Lemma wf_addObservations_item (now : Z) (n : string) (cs : list string) (s : Store) :
  store_wf s = true -> store_wf (fst (addObservations_item now n cs s)) = true.
Proof.
  intros H; unfold addObservations_item.
  destruct (String.eqb n "" || _); [exact H|].
  destruct (current_named s n) as [|cur l]; [exact H|].
  cbn [uuidv4]; destruct (not_in cs (e_observations cur)); [exact H|]; cbn [fst].
  apply wf_recreate_in, wf_recreate_out, wf_add_ents, wf_close_entity_and_edges, H.
Qed.

Lemma wf_addObservations_loop (now : Z) (obs : list (string * list string)) (s : Store)
    (acc : list (string * list string)) :
  store_wf s = true -> store_wf (fst (addObservations_loop now obs s acc)) = true.
Proof.
  revert s acc; induction obs as [|[n cs] rest IH]; intros s acc H; [exact H|].
  cbn [addObservations_loop].
  pose proof (wf_addObservations_item now n cs s H) as H1.
  destruct (addObservations_item now n cs s) as [s1 r]; apply IH, H1.
Qed.

Lemma wf_deleteObservations (now : Z) (dels : list (string * list string)) (s : Store) :
  store_wf s = true -> store_wf (deleteObservations now dels s) = true.
Proof.
  revert s; induction dels as [|[n ds] rest IH]; intros s H; [exact H|].
  cbn [deleteObservations]; apply IH; unfold deleteObservations_item.
  destruct (String.eqb n "" || _); [exact H|].
  destruct (current_named s n) as [|cur l]; [exact H|].
  cbn [uuidv4]; apply wf_add_ents, wf_close_entity, H.
Qed.

Lemma wf_updateRelation (now : Z) (ri : RelationInput) (s s' : Store) :
  updateRelation now ri s = Done s' -> store_wf s = true -> store_wf s' = true.
Proof.
  unfold updateRelation; destruct (current_edges_between _ _ _ _) as [|cur l]; [discriminate|].
  intros E H; injection E as <-; cbn [uuidv4].
  apply wf_add_edges; [intros f; apply named_sub | intros t; apply named_sub
                      | intros a b; split; reflexivity|].
  apply (wf_map_rels (mkStore (ents s) (rels s) (S (next_id s)))); [|exact H].
  intros r; destruct (_ && _); auto.
Qed.

Lemma wf_deleteEntities (names : list string) (s : Store) :
  store_wf s = true -> store_wf (deleteEntities names s) = true.
Proof.
  intros H; unfold deleteEntities; destruct names as [|x xs]; [exact H|].
  rewrite store_wf_iff in *; intros r Hin; cbn in Hin.
  apply filter_In in Hin as [Hr Hkeep]; apply negb_true_iff, orb_false_iff in Hkeep as [Hf Ht].
  destruct (H r Hr) as [(ef & Hef & Hidf) (et & Het & Hidt)].
  assert (forall e i, In e (ents s) -> e_id e = i ->
            existsb (fun e => Nat.eqb (e_id e) i && mem_str (e_name e) (x :: xs)) (ents s) = false ->
            has_node (deleteEntities (x :: xs) s) i) as Hkept.
  { intros e i He Hi Hg; exists e; split; [|exact Hi]; unfold deleteEntities; cbn [ents].
    apply filter_In; split; [exact He|].
    destruct (mem_str (e_name e) (x :: xs)) eqn:Hm; [|reflexivity].
    assert (existsb (fun e => Nat.eqb (e_id e) i && mem_str (e_name e) (x :: xs)) (ents s) = true)
      as Ht' by (apply existsb_exists; exists e; rewrite Hi, Nat.eqb_refl, Hm; auto).
    congruence. }
  split; [exact (Hkept ef _ Hef Hidf Hf) | exact (Hkept et _ Het Hidt Ht)].
Qed.

Lemma wf_deleteRelations (rs : list RelationInput) (s : Store) :
  store_wf s = true -> store_wf (deleteRelations rs s) = true.
Proof.
  unfold deleteRelations; revert s; induction rs as [|ri rest IH]; intros s H; [exact H|].
  cbn [fold_left]; apply IH; unfold deleteRelation_one; apply wf_filter_rels, H.
Qed.

Lemma wf_run_op (s : Store) (o : Op) : store_wf s = true -> store_wf (run_op s o) = true.
Proof.
  intros H; destruct o as [now es|now rs|now obs|now dels|now ri|names|rs]; cbn [run_op].
  - unfold createEntities; destruct es; [exact H | apply wf_createEntities_loop, H].
  - unfold createRelations; destruct rs; [exact H | apply wf_createRelations_loop, H].
  - unfold addObservations; destruct obs; [exact H | apply wf_addObservations_loop, H].
  - apply wf_deleteObservations, H.
  - destruct (updateRelation now ri s) eqn:E; [exact (wf_updateRelation now ri s _ E H) | exact H].
  - apply wf_deleteEntities, H.
  - apply wf_deleteRelations, H.
Qed.

(** Every edge of the store connects two stored nodes, whatever sequence
    of writes runs: no write leaves an edge whose source or target node is
    missing. *)
Theorem run_ops_store_wf (s : Store) (ops : list Op) (Hwf : store_wf s = true) :
  store_wf (run_ops s ops) = true.
Proof.
  unfold run_ops; revert s Hwf; induction ops as [|o rest IH]; intros s H; [exact H|].
  cbn [fold_left]; apply IH, wf_run_op, H.
Qed.

End StoreWf.

(** ** Node ids and the history of rows *)

Section StoreHistory.

Lemma nodup_nat_iff (l : list nat) : nodup_nat l = true <-> NoDup l.
Proof.
  induction l as [|x r IH]; cbn [nodup_nat].
  - split; [intros _; constructor | reflexivity].
  - rewrite andb_true_iff, negb_true_iff, IH; split.
    + intros [Hx Hr]; constructor; [|exact Hr].
      intros Hin; assert (existsb (Nat.eqb x) r = true) as Ht
        by (apply existsb_exists; exists x; split; [exact Hin | apply Nat.eqb_refl]).
      congruence.
    + intros Hnd; inversion Hnd as [|y l Hy Hr]; subst; split; [|exact Hr].
      destruct (existsb (Nat.eqb x) r) eqn:E; [|reflexivity].
      apply existsb_exists in E as (z & Hz & Ez); apply Nat.eqb_eq in Ez; subst; contradiction.
Qed.

Lemma ids_ok_iff (s : Store) :
  ids_ok s = true <->
  NoDup (map e_id (ents s)) /\ (forall e, In e (ents s) -> (e_id e < next_id s)%nat).
Proof.
  unfold ids_ok; rewrite andb_true_iff, nodup_nat_iff, forallb_forall.
  split; intros [H1 H2]; split; auto; intros e He; specialize (H2 e He).
  - apply Nat.ltb_lt, H2.
  - apply Nat.ltb_lt, H2.
Qed.

Lemma NoDup_map_inj {A B : Type} (f : A -> B) (l : list A) (x y : A) :
  NoDup (map f l) -> In x l -> In y l -> f x = f y -> x = y.
Proof.
  induction l as [|a l IH]; intros Hnd Hx Hy Hf; [contradiction|].
  cbn in Hnd; inversion Hnd as [|b m Hb Hnd' Heq]; subst.
  destruct Hx as [<-|Hx], Hy as [<-|Hy]; auto.
  - exfalso; apply Hb; rewrite Hf; apply in_map, Hy.
  - exfalso; apply Hb; rewrite <- Hf; apply in_map, Hx.
Qed.

Lemma NoDup_map_filter {X Y : Type} (g : X -> Y) (keep : X -> bool) (xs : list X) :
  NoDup (map g xs) -> NoDup (map g (filter keep xs)).
Proof.
  induction xs as [|x xs IH]; intros Hnd; [constructor|].
  cbn in Hnd; inversion Hnd as [|y ys Hy Hnd' Heq]; subst; cbn [filter].
  destruct (keep x); [|exact (IH Hnd')].
  constructor; [|exact (IH Hnd')].
  intros Hin; apply Hy; apply in_map_iff in Hin as (z & Hz & Hin).
  apply filter_In in Hin as [Hin _]; rewrite <- Hz; apply in_map, Hin.
Qed.

Lemma ids_same_ents (s s' : Store) :
  ents s' = ents s -> (next_id s <= next_id s')%nat -> ids_ok s = true -> ids_ok s' = true.
Proof.
  intros He Hn H; rewrite ids_ok_iff in *; rewrite He; destruct H as [H1 H2]; split; [exact H1|].
  intros e Hin; specialize (H2 e Hin); lia.
Qed.

Lemma ids_add_fresh (s : Store) (row : Entity) :
  ids_ok s = true -> e_id row = next_id s -> ids_ok (add_ents (snd (uuidv4 s)) [row]) = true.
Proof.
  intros H Hr; rewrite ids_ok_iff in *; destruct H as [H1 H2]; cbn [add_ents uuidv4 snd ents next_id].
  split.
  - rewrite map_app; apply NoDup_app; [exact H1 | constructor; [intros [] | constructor]|].
    intros a Ha [Hb|[]]; apply in_map_iff in Ha as (e & <- & He).
    specialize (H2 e He); lia.
  - intros e Hin; apply in_app_or in Hin as [Hin|[<-|[]]]; [specialize (H2 e Hin)|]; lia.
Qed.

Lemma map_id_close_row (i : nat) (now : Z) (l : list Entity) :
  map e_id (map (close_row i now) l) = map e_id l.
Proof.
  induction l as [|e l IH]; [reflexivity|]; cbn [map]; rewrite IH; f_equal.
  unfold close_row; destruct (Nat.eqb (e_id e) i); reflexivity.
Qed.

Lemma ids_close_entity (now : Z) (i : nat) (s : Store) :
  ids_ok s = true -> ids_ok (close_entity now i s) = true.
Proof.
  intros H; rewrite ids_ok_iff in *; destruct H as [H1 H2]; split.
  - exact (eq_ind _ (fun l => NoDup l) H1 _ (eq_sym (map_id_close_row i now (ents s)))).
  - intros e' Hin; cbn in Hin; apply in_map_iff in Hin as (e & <- & He).
    specialize (H2 e He); destruct (Nat.eqb (e_id e) i); exact H2.
Qed.

Lemma recreate_out_next (now : Z) (i : nat) (rs : list Relationship) (s : Store) :
  (next_id s <= next_id (recreate_out now i rs s))%nat.
Proof.
  revert s; induction rs as [|rp rest IH]; intros s; [cbn; lia|].
  cbn [recreate_out uuidv4]; etransitivity; [|apply IH]; cbn; lia.
Qed.

Lemma recreate_in_next (now : Z) (i : nat) (rs : list Relationship) (s : Store) :
  (next_id s <= next_id (recreate_in now i rs s))%nat.
Proof.
  revert s; induction rs as [|rp rest IH]; intros s; [cbn; lia|].
  cbn [recreate_in uuidv4]; etransitivity; [|apply IH]; cbn; lia.
Qed.

Lemma createRelations_loop_next (now : Z) (rs : list RelationInput) (s : Store)
    (acc : list Relationship) :
  (next_id s <= next_id (fst (createRelations_loop now rs s acc)))%nat.
Proof.
  revert s acc; induction rs as [|ri rest IH]; intros s acc; [cbn; lia|].
  cbn [createRelations_loop uuidv4].
  destruct (negb _); (etransitivity; [|apply IH]); cbn; lia.
Qed.

Lemma createEntities_loop_eq (now : Z) (es : list EntityInput) (s : Store) (acc : list Entity) :
  createEntities_loop now es s acc
  = (mkStore (ents s ++ rows_from now (next_id s) es) (rels s) (next_id s + List.length es),
     acc ++ rows_from now (next_id s) es).
Proof.
  revert s acc; induction es as [|ei rest IH]; intros s acc.
  - cbn; rewrite !app_nil_r, Nat.add_0_r; destruct s; reflexivity.
  - cbn [createEntities_loop uuidv4]; rewrite IH; cbn [ents rels next_id add_ents rows_from List.length].
    rewrite <- !app_assoc; cbn [app]; f_equal; f_equal; lia.
Qed.

Lemma ids_createEntities_loop (now : Z) (es : list EntityInput) (s : Store) (acc : list Entity) :
  ids_ok s = true -> ids_ok (fst (createEntities_loop now es s acc)) = true.
Proof.
  revert s acc; induction es as [|ei rest IH]; intros s acc H; [exact H|].
  cbn [createEntities_loop uuidv4]; apply IH, (ids_add_fresh s); [exact H | reflexivity].
Qed.

Lemma ids_addObservations_item (now : Z) (n : string) (cs : list string) (s : Store) :
  ids_ok s = true -> ids_ok (fst (addObservations_item now n cs s)) = true.
Proof.
  intros H; unfold addObservations_item.
  destruct (String.eqb n "" || _); [exact H|].
  destruct (current_named s n) as [|cur l]; [exact H|].
  cbn [uuidv4]; destruct (not_in cs (e_observations cur)); cbn [fst].
  - apply (ids_same_ents s); [reflexivity | cbn; lia | exact H].
  - set (s3 := add_ents _ _).
    assert (ids_ok s3 = true) as H3.
    { rewrite ids_ok_iff in *; destruct H as [H1 H2]; cbn [s3 add_ents close_entity_and_edges
        close_entity ents next_id].
      split.
      - rewrite map_app; apply NoDup_app.
        + exact (eq_ind _ (fun l => NoDup l) H1 _ (eq_sym (map_id_close_row (e_id cur) now (ents s)))).
        + constructor; [intros [] | constructor].
        + intros a Ha [Hb|[]]; change (In a (map e_id (map (close_row (e_id cur) now) (ents s)))) in Ha.
          rewrite map_id_close_row in Ha; apply in_map_iff in Ha as (e & <- & He).
          specialize (H2 e He); cbn in Hb; lia.
      - intros e' Hin; apply in_app_or in Hin as [Hin|[<-|[]]]; [|cbn; lia].
        apply in_map_iff in Hin as (e & <- & He); specialize (H2 e He).
        destruct (Nat.eqb (e_id e) (e_id cur)); cbn; lia. }
    apply (ids_same_ents (recreate_out now (next_id s) (outgoing s cur) s3));
      [apply recreate_in_ents | apply recreate_in_next |].
    apply (ids_same_ents s3); [apply recreate_out_ents | apply recreate_out_next | exact H3].
Qed.

Lemma ids_addObservations_loop (now : Z) (obs : list (string * list string)) (s : Store)
    (acc : list (string * list string)) :
  ids_ok s = true -> ids_ok (fst (addObservations_loop now obs s acc)) = true.
Proof.
  revert s acc; induction obs as [|[n cs] rest IH]; intros s acc H; [exact H|].
  cbn [addObservations_loop].
  pose proof (ids_addObservations_item now n cs s H) as H1.
  destruct (addObservations_item now n cs s) as [s1 r]; apply IH, H1.
Qed.

Lemma ids_deleteObservations_item (now : Z) (n : string) (ds : list string) (s : Store) :
  ids_ok s = true -> ids_ok (deleteObservations_item now n ds s) = true.
Proof.
  intros H; unfold deleteObservations_item.
  destruct (String.eqb n "" || _); [exact H|].
  destruct (current_named s n) as [|cur l]; [exact H|].
  cbn [uuidv4]; rewrite ids_ok_iff in *; destruct H as [H1 H2];
    cbn [add_ents close_entity ents next_id]; split.
  - rewrite map_app; apply NoDup_app.
    + exact (eq_ind _ (fun l => NoDup l) H1 _ (eq_sym (map_id_close_row (e_id cur) now (ents s)))).
    + constructor; [intros [] | constructor].
    + intros a Ha [Hb|[]]; change (In a (map e_id (map (close_row (e_id cur) now) (ents s)))) in Ha.
      rewrite map_id_close_row in Ha; apply in_map_iff in Ha as (e & <- & He).
      specialize (H2 e He); cbn in Hb; lia.
  - intros e' Hin; apply in_app_or in Hin as [Hin|[<-|[]]]; [|cbn; lia].
    apply in_map_iff in Hin as (e & <- & He); specialize (H2 e He).
    destruct (Nat.eqb (e_id e) (e_id cur)); cbn; lia.
Qed.

Lemma ids_deleteObservations (now : Z) (dels : list (string * list string)) (s : Store) :
  ids_ok s = true -> ids_ok (deleteObservations now dels s) = true.
Proof.
  revert s; induction dels as [|[n ds] rest IH]; intros s H; [exact H|].
  cbn [deleteObservations]; apply IH, ids_deleteObservations_item, H.
Qed.

Lemma ids_run_op (s : Store) (o : Op) : ids_ok s = true -> ids_ok (run_op s o) = true.
Proof.
  intros H; destruct o as [now es|now rs|now obs|now dels|now ri|names|rs]; cbn [run_op].
  - unfold createEntities; destruct es; [exact H | apply ids_createEntities_loop, H].
  - unfold createRelations; destruct rs; [exact H|].
    apply (ids_same_ents s); [apply createRelations_loop_ents | apply createRelations_loop_next | exact H].
  - unfold addObservations; destruct obs; [exact H | apply ids_addObservations_loop, H].
  - apply ids_deleteObservations, H.
  - destruct (updateRelation now ri s) as [s'|msg] eqn:E; [|exact H].
    apply (ids_same_ents s); [exact (updateRelation_ents now ri s s' E)| |exact H].
    revert E; unfold updateRelation; destruct (current_edges_between _ _ _ _); [discriminate|].
    intros E; injection E as <-; cbn; lia.
  - unfold deleteEntities; destruct names as [|x xs]; [exact H|].
    rewrite ids_ok_iff in *; destruct H as [H1 H2]; cbn [ents next_id]; split.
    + apply NoDup_map_filter, H1.
    + intros e He; apply filter_In in He as [He _]; apply H2, He.
  - apply (ids_same_ents s); [apply deleteRelations_ents | | exact H].
    unfold deleteRelations; clear H; revert s; induction rs as [|ri rest IH]; intros s; [cbn; lia|].
    cbn [fold_left]; etransitivity; [|apply IH]; cbn; lia.
Qed.

Lemma ids_run_ops (s : Store) (ops : list Op) : ids_ok s = true -> ids_ok (run_ops s ops) = true.
Proof.
  unfold run_ops; revert s; induction ops as [|o rest IH]; intros s H; [exact H|].
  cbn [fold_left]; apply IH, ids_run_op, H.
Qed.

End StoreHistory.

Section HistoryKept.

Lemma kept_same (s s' : Store) : ents s' = ents s -> history_kept s s'.
Proof. intros He e Hin; left; rewrite He; exact Hin. Qed.

Lemma kept_app (s s' : Store) (extra : list Entity) :
  ents s' = ents s ++ extra -> history_kept s s'.
Proof. intros He e Hin; left; rewrite He; apply in_or_app; left; exact Hin. Qed.

Lemma kept_trans (s1 s2 s3 : Store) :
  history_kept s1 s2 -> history_kept s2 s3 -> history_kept s1 s3.
Proof.
  intros H12 H23 e Hin.
  destruct (H12 e Hin) as [H|[Hc [t Ht]]].
  - exact (H23 e H).
  - right; split; [exact Hc|]; exists t.
    destruct (H23 _ Ht) as [H|[Hc' _]]; [exact H | discriminate Hc'].
Qed.

Lemma kept_close (s s' : Store) (i : nat) (now : Z) (extra : list Entity) :
  (forall e, In e (ents s) -> e_id e = i -> is_current e = true) ->
  ents s' = map (close_row i now) (ents s) ++ extra -> history_kept s s'.
Proof.
  intros Hc He e Hin; rewrite He.
  destruct (Nat.eqb (e_id e) i) eqn:Ei.
  - right; split; [apply Hc; [exact Hin | apply Nat.eqb_eq, Ei]|]; exists now.
    assert (close_row i now e = set_e_validTo now e) as Hr by (unfold close_row; rewrite Ei; reflexivity).
    rewrite <- Hr; apply in_or_app; left; apply in_map, Hin.
  - left; assert (close_row i now e = e) as Hr by (unfold close_row; rewrite Ei; reflexivity).
    rewrite <- Hr at 1; apply in_or_app; left; apply in_map, Hin.
Qed.

Lemma same_id_current (s : Store) (cur : Entity) :
  ids_ok s = true -> In cur (ents s) -> is_current cur = true ->
  forall e, In e (ents s) -> e_id e = e_id cur -> is_current e = true.
Proof.
  intros H Hin Hc e He Hid; apply ids_ok_iff in H as [H1 _].
  rewrite (NoDup_map_inj e_id (ents s) e cur H1 He Hin Hid); exact Hc.
Qed.

Lemma kept_addObservations_item (now : Z) (n : string) (cs : list string) (s : Store) :
  ids_ok s = true -> history_kept s (fst (addObservations_item now n cs s)).
Proof.
  intros H; unfold addObservations_item.
  destruct (String.eqb n "" || _); [apply kept_same; reflexivity|].
  destruct (current_named s n) as [|cur l] eqn:Hcn; [apply kept_same; reflexivity|].
  destruct (current_named_head s n cur l Hcn) as (Hin & Hc & Hn).
  cbn [uuidv4]; destruct (not_in cs (e_observations cur)); cbn [fst];
    [apply kept_same; reflexivity|].
  eapply (kept_close s _ (e_id cur) now); [exact (same_id_current s cur H Hin Hc)|].
  rewrite recreate_in_ents, recreate_out_ents; reflexivity.
Qed.

Lemma kept_addObservations_loop (now : Z) (obs : list (string * list string)) (s : Store)
    (acc : list (string * list string)) :
  ids_ok s = true -> history_kept s (fst (addObservations_loop now obs s acc)).
Proof.
  revert s acc; induction obs as [|[n cs] rest IH]; intros s acc H; [apply kept_same; reflexivity|].
  cbn [addObservations_loop].
  pose proof (ids_addObservations_item now n cs s H) as H1.
  pose proof (kept_addObservations_item now n cs s H) as K1.
  destruct (addObservations_item now n cs s) as [s1 r]; cbn [fst] in H1, K1.
  exact (kept_trans _ _ _ K1 (IH s1 _ H1)).
Qed.

Lemma kept_deleteObservations_item (now : Z) (n : string) (ds : list string) (s : Store) :
  ids_ok s = true -> history_kept s (deleteObservations_item now n ds s).
Proof.
  intros H; unfold deleteObservations_item.
  destruct (String.eqb n "" || _); [apply kept_same; reflexivity|].
  destruct (current_named s n) as [|cur l] eqn:Hcn; [apply kept_same; reflexivity|].
  destruct (current_named_head s n cur l Hcn) as (Hin & Hc & Hn).
  cbn [uuidv4]; eapply (kept_close s _ (e_id cur) now);
    [exact (same_id_current s cur H Hin Hc) | reflexivity].
Qed.

Lemma kept_deleteObservations (now : Z) (dels : list (string * list string)) (s : Store) :
  ids_ok s = true -> history_kept s (deleteObservations now dels s).
Proof.
  revert s; induction dels as [|[n ds] rest IH]; intros s H; [apply kept_same; reflexivity|].
  cbn [deleteObservations].
  exact (kept_trans _ _ _ (kept_deleteObservations_item now n ds s H)
           (IH _ (ids_deleteObservations_item now n ds s H))).
Qed.

Lemma kept_run_op (s : Store) (o : Op) :
  ids_ok s = true -> hard_delete o = false -> history_kept s (run_op s o).
Proof.
  intros H Ho; destruct o as [now es|now rs|now obs|now dels|now ri|names|rs]; cbn [run_op].
  - unfold createEntities; destruct es as [|ei es]; [apply kept_same; reflexivity|].
    apply (kept_app s _ (rows_from now (next_id s) (ei :: es))).
    rewrite createEntities_loop_eq; reflexivity.
  - unfold createRelations; destruct rs; [apply kept_same; reflexivity|].
    apply kept_same, createRelations_loop_ents.
  - unfold addObservations; destruct obs; [apply kept_same; reflexivity|].
    apply kept_addObservations_loop, H.
  - apply kept_deleteObservations, H.
  - destruct (updateRelation now ri s) as [s'|msg] eqn:E; [|apply kept_same; reflexivity].
    apply kept_same, (updateRelation_ents now ri s s' E).
  - discriminate Ho.
  - apply kept_same, deleteRelations_ents.
Qed.

Lemma run_ops_kept (s : Store) (ops : list Op) :
  ids_ok s = true -> existsb hard_delete ops = false -> history_kept s (run_ops s ops).
Proof.
  unfold run_ops; revert s; induction ops as [|o rest IH]; intros s Hids Hnd;
    [apply kept_same; reflexivity|].
  cbn [existsb] in Hnd; apply orb_false_iff in Hnd as [Ho Hrest].
  cbn [fold_left].
  exact (kept_trans _ _ _ (kept_run_op s o Hids Ho) (IH _ (ids_run_op s o Hids) Hrest)).
Qed.

(** Soft versioning keeps history: along any sequence of operations without
    [deleteEntities], every row is kept as it was, except that a row current
    at the start may have been closed (its [validTo] set, nothing else
    changed). *)
Theorem run_ops_history_kept (s : Store) (ops : list Op)
    (Hids : ids_ok s = true) (Hnd : existsb hard_delete ops = false) :
  history_kept s (run_ops s ops).
Proof. exact (run_ops_kept s ops Hids Hnd). Qed.

End HistoryKept.

(** ** Single operations *)

Section SingleOps.

Lemma rows_from_length (now : Z) (k : nat) (es : list EntityInput) :
  List.length (rows_from now k es) = List.length es.
Proof. revert k; induction es as [|ei es IH]; intros k; cbn; [reflexivity | rewrite IH; reflexivity]. Qed.

Lemma rows_from_nth (now : Z) (k i : nat) (es : list EntityInput) (ei : EntityInput) :
  nth_error es i = Some ei -> nth_error (rows_from now k es) i = Some (new_entity_row now (k + i) ei).
Proof.
  revert k i; induction es as [|x es IH]; intros k i H; [destruct i; discriminate|].
  destruct i as [|i]; cbn in H |- *.
  - injection H as ->; rewrite Nat.add_0_r; reflexivity.
  - rewrite (IH (S k) i H); do 2 f_equal; lia.
Qed.


Lemma js_or_Z_succ (v : Z) : (js_or_Z (Some v) 0 + 1 = v + 1)%Z.
Proof. unfold js_or_Z; destruct (Z.eqb_spec v 0); lia. Qed.


(** [createEntities] appends one row per input, in order, with fresh
    consecutive ids, and returns exactly the rows it wrote; the edges are
    untouched. *)
Theorem createEntities_result (now : Z) (es : list EntityInput) (s : Store) :
  let '(s', created) := createEntities now es s in
  ents s' = ents s ++ created /\ rels s' = rels s /\
  List.length created = List.length es /\
  (forall i ei, nth_error es i = Some ei ->
     nth_error created i = Some (new_entity_row now (next_id s + i) ei)).
Proof.
  unfold createEntities; destruct es as [|x es].
  - repeat split; [rewrite app_nil_r; reflexivity | intros [|i] ei H; discriminate].
  - rewrite createEntities_loop_eq; cbn [ents rels app].
    repeat split; [apply rows_from_length|].
    intros i ei H; apply rows_from_nth, H.
Qed.


(** [deleteEntities] removes every version of each listed name and keeps
    every other row; no edge is left touching a node that had a listed
    name. *)
Theorem deleteEntities_named (names : list string) (s : Store) :
  (forall m, named (deleteEntities names s) m = if mem_str m names then [] else named s m) /\
  (forall r e, In r (rels (deleteEntities names s)) -> In e (ents s) ->
     (e_id e = r_from r \/ e_id e = r_to r) -> mem_str (e_name e) names = false).
Proof.
  split.
  - intros m; destruct names as [|x xs]; [reflexivity|].
    unfold deleteEntities, named; cbn [ents].
    destruct (mem_str m (x :: xs)) eqn:Hm.
    + apply filter_none; intros e He; apply filter_In in He as [_ He].
      apply negb_true_iff in He; destruct (String.eqb_spec (e_name e) m) as [<-|]; congruence.
    + induction (ents s) as [|a l IH]; [reflexivity|]; cbn [filter].
      destruct (mem_str (e_name a) (x :: xs)) eqn:Ha; cbn [negb].
      * destruct (String.eqb_spec (e_name a) m) as [<-|]; [congruence | exact IH].
      * cbn [filter]; rewrite IH; reflexivity.
  - intros r e Hr He Hid; destruct names as [|x xs]; [reflexivity|].
    unfold deleteEntities in Hr; cbn [rels] in Hr; apply filter_In in Hr as [_ Hr].
    apply negb_true_iff, orb_false_iff in Hr as [Hf Ht].
    destruct (mem_str (e_name e) (x :: xs)) eqn:Hm; [|reflexivity].
    assert (existsb (fun e0 => Nat.eqb (e_id e0) (e_id e) && mem_str (e_name e0) (x :: xs)) (ents s)
            = true) as Hex by (apply existsb_exists; exists e; rewrite Nat.eqb_refl, Hm; auto).
    destruct Hid as [Hid|Hid]; rewrite <- Hid in *; congruence.
Qed.



End SingleOps.

(** ** Relations: hard deletes and updates *)

Section RelationOps.

Lemma name_is_node (s : Store) (i : nat) (n : string) :
  name_is s i n = true <-> node_name s i = Some n.
Proof.
  unfold name_is; destruct (node_name s i) as [m|]; split; intros H; try discriminate.
  - apply String.eqb_eq in H; subst; reflexivity.
  - injection H as ->; apply String.eqb_refl.
Qed.

Lemma name_is_same_ents (s s' : Store) (i : nat) (n : string) :
  ents s' = ents s -> name_is s' i n = name_is s i n.
Proof. intros He; unfold name_is, node_name; rewrite He; reflexivity. Qed.

Lemma node_name_in (s : Store) (i : nat) (n : string) :
  node_name s i = Some n -> exists e, In e (ents s) /\ e_id e = i /\ e_name e = n.
Proof.
  unfold node_name; destruct (find (fun e => Nat.eqb (e_id e) i) (ents s)) as [e|] eqn:Hf;
    [|discriminate].
  intros H; injection H as <-; apply find_some in Hf as [Hin Hid].
  apply Nat.eqb_eq in Hid; exists e; auto.
Qed.

Lemma node_name_of (s : Store) (e : Entity) :
  ids_ok s = true -> In e (ents s) -> node_name s (e_id e) = Some (e_name e).
Proof.
  intros H Hin; apply ids_ok_iff in H as [H1 _]; unfold node_name.
  destruct (find (fun x => Nat.eqb (e_id x) (e_id e)) (ents s)) as [x|] eqn:Hf.
  - apply find_some in Hf as [Hx Hid]; apply Nat.eqb_eq in Hid.
    rewrite (NoDup_map_inj e_id (ents s) x e H1 Hx Hin Hid); reflexivity.
  - pose proof (find_none _ _ Hf e Hin) as Hn; cbn in Hn; rewrite Nat.eqb_refl in Hn; discriminate.
Qed.

Lemma flat_map_none {A B : Type} (f : A -> list B) (l : list A) :
  (forall x, In x l -> f x = []) -> flat_map f l = [].
Proof.
  induction l as [|a l IH]; intros H; [reflexivity|].
  cbn [flat_map]; rewrite (H a (or_introl eq_refl)); apply IH; intros x Hx; apply H; right; exact Hx.
Qed.

Lemma in_current_edges_between (s : Store) (F T Ty : string) (r : Relationship) :
  In r (current_edges_between s F T Ty) <->
  In r (rels s) /\ node_name s (r_from r) = Some F /\ node_name s (r_to r) = Some T
  /\ r_relationType r = Ty /\ r_validTo r = None.
Proof.
  unfold current_edges_between, edges_between; rewrite !filter_In, !andb_true_iff,
    !name_is_node, String.eqb_eq.
  destruct (r_validTo r); cbn [is_null]; split; intros H; intuition congruence.
Qed.

Lemma edge_ends_same (s s' : Store) (r r' : Relationship) :
  ents s' = ents s -> r_from r' = r_from r -> r_to r' = r_to r -> edge_ends s' r' = edge_ends s r.
Proof. intros He Hf Ht; unfold edge_ends, node_name; rewrite He, Hf, Ht; reflexivity. Qed.

(** [deleteRelations] hard-deletes every edge that matches one of the
    given (from, to, type) triples by the names of its endpoint nodes,
    closed historical versions included, and keeps every other edge; the
    nodes are untouched. *)
Theorem deleteRelations_removes (rs : list RelationInput) (s : Store) (r : Relationship) :
  ents (deleteRelations rs s) = ents s /\
  (In r (rels (deleteRelations rs s)) <->
   In r (rels s) /\
   forall ri, In ri rs ->
     (name_is s (r_from r) (ri_from ri) && name_is s (r_to r) (ri_to ri)
      && String.eqb (r_relationType r) (ri_relationType ri)) = false).
Proof.
  split; [apply deleteRelations_ents|].
  unfold deleteRelations; revert s; induction rs as [|ri rest IH]; intros s.
  - cbn [fold_left]; split; [intros H; split; [exact H | intros ri []] | intros [H _]; exact H].
  - cbn [fold_left]; rewrite IH.
    assert (forall i n, name_is (deleteRelation_one ri s) i n = name_is s i n) as Hn
      by (intros i n; apply name_is_same_ents; reflexivity).
    unfold deleteRelation_one at 1; cbn [rels]; rewrite filter_In, negb_true_iff.
    split.
    + intros [[Hin H1] H2]; split; [exact Hin|].
      intros ri' [<-|Hri]; [exact H1|].
      specialize (H2 ri' Hri); rewrite !Hn in H2; exact H2.
    + intros [Hin H]; split; [split; [exact Hin | apply H; left; reflexivity]|].
      intros ri' Hri; rewrite !Hn; apply H; right; exact Hri.
Qed.

(** When exactly one current edge of the given type joins the two names
    (and node ids are unique), [updateRelation] succeeds: the old edge is
    closed, and [getRelation] returns a new current edge with a fresh id,
    the given strength and confidence (the old ones where none is given)
    and the version one higher. *)
Theorem updateRelation_getRelation (now : Z) (ri : RelationInput) (s : Store) (cur : Relationship)
    (Hids : ids_ok s = true)
    (Hone : current_edges_between s (ri_from ri) (ri_to ri) (ri_relationType ri) = [cur]) :
  match updateRelation now ri s with
  | Thrown _ => False
  | Done s' =>
      In (set_r_validTo now cur) (rels s') /\
      exists r, getRelation s' (ri_from ri) (ri_to ri) (ri_relationType ri)
                = Some (ri_from ri, ri_to ri, r)
        /\ r_id r = next_id s
        /\ r_strength r = match ri_strength ri with Some x => Some x | None => r_strength cur end
        /\ r_confidence r = match ri_confidence ri with Some x => Some x | None => r_confidence cur end
        /\ r_version r = (r_version cur + 1)%Z
        /\ r_validTo r = None
  end.
Proof.
  assert (In cur (current_edges_between s (ri_from ri) (ri_to ri) (ri_relationType ri))) as Hc
    by (rewrite Hone; left; reflexivity).
  apply in_current_edges_between in Hc as (Hin & Hf & Ht & Hty & Hvt).
  assert (name_is s (r_from cur) (ri_from ri) = true) as Hnf by (apply name_is_node, Hf).
  assert (name_is s (r_to cur) (ri_to ri) = true) as Hnt by (apply name_is_node, Ht).
  destruct (node_name_in s _ _ Hf) as (f0 & Hf0 & _ & Hf0n).
  destruct (node_name_in s _ _ Ht) as (t0 & Ht0 & _ & Ht0n).
  unfold updateRelation; rewrite Hone; cbn [uuidv4].
  set (s1 := mkStore (ents s) (rels s) (S (next_id s))).
  assert (forall i n, name_is s1 i n = name_is s i n) as Hs1
    by (intros i n; apply name_is_same_ents; reflexivity).
  set (close := fun r : Relationship =>
         if Nat.eqb (r_id r) (r_id cur) && name_is s1 (r_from r) (ri_from ri)
            && name_is s1 (r_to r) (ri_to ri)
         then set_r_validTo now r else r).
  assert (close cur = set_r_validTo now cur) as Hcc
    by (unfold close; rewrite !Hs1, Nat.eqb_refl, Hnf, Hnt; reflexivity).
  assert (In f0 (named s (ri_from ri))) as Hf0in
    by (unfold named; apply filter_In; rewrite Hf0n, String.eqb_refl; auto).
  assert (In t0 (named s (ri_to ri))) as Ht0in
    by (unfold named; apply filter_In; rewrite Ht0n, String.eqb_refl; auto).
  unfold add_rels, getRelation, match_edges; cbn [ents rels next_id s1].
  change (map (fun r => if Nat.eqb (r_id r) (r_id cur) && name_is s1 (r_from r) (ri_from ri)
                             && name_is s1 (r_to r) (ri_to ri)
                          then set_r_validTo now r else r) (rels s))
    with (map close (rels s)).
  change (named (mkStore (ents s) (map close (rels s)) (S (next_id s))))
    with (named s).
  split; [apply in_or_app; left; rewrite <- Hcc; apply in_map, Hin|].
  rewrite flat_map_app, flat_map_none.
  - destruct (named s (ri_from ri)) as [|f1 fs] eqn:Ef; [destruct Hf0in|].
    destruct (named s (ri_to ri)) as [|t1 ts] eqn:Et; [destruct Ht0in|].
    assert (e_name f1 = ri_from ri) as Hf1.
    { assert (In f1 (named s (ri_from ri))) as H by (rewrite Ef; left; reflexivity).
      unfold named in H; apply filter_In in H as [_ H]; apply String.eqb_eq, H. }
    assert (e_name t1 = ri_to ri) as Ht1.
    { assert (In t1 (named s (ri_to ri))) as H by (rewrite Et; left; reflexivity).
      unfold named in H; apply filter_In in H as [_ H]; apply String.eqb_eq, H. }
    assert (In f1 (ents s)) as Hf1in.
    { apply (named_sub s (ri_from ri)); rewrite Ef; left; reflexivity. }
    assert (In t1 (ents s)) as Ht1in.
    { apply (named_sub s (ri_to ri)); rewrite Et; left; reflexivity. }
    unfold create_edges; cbn [flat_map map app hd_error].
    unfold edge_ends; cbn [r_from r_to r_relationType r_validTo].
    change (node_name (mkStore (ents s) (map close (rels s) ++ _) (S (next_id s))) (e_id f1))
      with (node_name s (e_id f1)).
    change (node_name (mkStore (ents s) (map close (rels s) ++ _) (S (next_id s))) (e_id t1))
      with (node_name s (e_id t1)).
    rewrite (node_name_of s f1 Hids Hf1in), (node_name_of s t1 Hids Ht1in), Hf1, Ht1.
    rewrite !String.eqb_refl; cbn [andb is_null hd_error app].
    eexists; split; [reflexivity|]; cbn [r_id r_strength r_confidence r_version r_validTo].
    repeat split; apply js_or_Z_succ.
  - intros x Hx; apply in_map_iff in Hx as (r & <- & Hr).
    assert (r_from (close r) = r_from r /\ r_to (close r) = r_to r) as [Hcf Hct]
      by (unfold close; destruct (_ && _ && _); split; reflexivity).
    change (edge_ends (mkStore (ents s) _ _) (close r)) with (edge_ends s (close r)).
    rewrite (edge_ends_same s s r (close r) eq_refl Hcf Hct).
    destruct (edge_ends s r) as [[f t]|] eqn:Ee; [|reflexivity].
    destruct (String.eqb f (ri_from ri) && String.eqb t (ri_to ri)
              && String.eqb (r_relationType (close r)) (ri_relationType ri)
              && is_null (r_validTo (close r))) eqn:Hk; [|reflexivity].
    exfalso; apply andb_true_iff in Hk as [Hk Hv]; apply andb_true_iff in Hk as [Hk Hty'].
    apply andb_true_iff in Hk as [Hk1 Hk2]; apply String.eqb_eq in Hk1, Hk2, Hty'; subst f t.
    assert (close r = r) as Hr'.
    { unfold close in Hv |- *; destruct (_ && _ && _); [discriminate Hv | reflexivity]. }
    rewrite Hr' in Hty', Hv.
    unfold edge_ends in Ee.
    destruct (node_name s (r_from r)) as [f|] eqn:Ef, (node_name s (r_to r)) as [t|] eqn:Et;
      try discriminate; injection Ee as -> ->.
    assert (r = cur) as ->.
    { assert (In r (current_edges_between s (ri_from ri) (ri_to ri) (ri_relationType ri))) as H.
      { apply in_current_edges_between; repeat split; auto.
        destruct (r_validTo r); [discriminate Hv | reflexivity]. }
      rewrite Hone in H; destruct H as [<-|[]]; reflexivity. }
    rewrite Hcc in Hr'; rewrite <- Hr' in Hvt; discriminate Hvt.
Qed.

End RelationOps.

(** ** Reads *)

Section Reads.


Lemma length_in_pos {A : Type} (l : list A) (a : A) : In a l -> (1 <= List.length l)%nat.
Proof. destruct l; [intros []|cbn; lia]. Qed.

Lemma current_names_nodup (l : list Entity) :
  (forall n, List.length (filter (cnb n) l) <= 1)%nat ->
  NoDup (map e_name (filter is_current l)).
Proof.
  induction l as [|a l IH]; intros H; [constructor|].
  assert (forall n, List.length (filter (cnb n) l) <= 1)%nat as Hl.
  { intros n; specialize (H n); cbn [filter] in H; destruct (cnb n a); cbn [List.length] in H; lia. }
  cbn [filter]; destruct (is_current a) eqn:Ha; [|exact (IH Hl)].
  cbn [map]; constructor; [|exact (IH Hl)].
  intros Hin; apply in_map_iff in Hin as (e & Hn & He); apply filter_In in He as [He Hc].
  specialize (H (e_name a)); cbn [filter] in H.
  unfold cnb at 1 in H; rewrite String.eqb_refl, Ha in H; cbn [andb List.length] in H.
  assert (In e (filter (cnb (e_name a)) l)) as He'
    by (apply filter_In; split; [exact He | unfold cnb; rewrite Hn, String.eqb_refl, Hc; reflexivity]).
  pose proof (length_in_pos _ _ He'); lia.
Qed.

(** [loadGraph] returns the current rows and the current edges; with at
    most one current row per name, no entity name occurs twice in it. *)
Theorem loadGraph_current_unique (s : Store) (Hone : one_current s) :
  NoDup (map e_name (g_entities (loadGraph s))) /\
  (forall e, In e (g_entities (loadGraph s)) -> In e (ents s) /\ is_current e = true) /\
  (forall f t r, In (f, t, r) (g_relations (loadGraph s)) ->
     In r (rels s) /\ edge_ends s r = Some (f, t) /\ r_validTo r = None).
Proof.
  split; [|split].
  - apply current_names_nodup, Hone.
  - intros e He; apply filter_In in He; exact He.
  - intros f t r Hr; apply in_match_edges in Hr as (Hin & He & Hk).
    repeat split; auto; destruct (r_validTo r); [discriminate Hk | reflexivity].
Qed.



End Reads.

(** ** createRelations *)

Section CreateRelations.

Lemma in_create_edges (froms tos : list Entity) (mk : nat -> nat -> Relationship) (r : Relationship) :
  In r (create_edges froms tos mk) ->
  exists f t, In f froms /\ In t tos /\ r = mk (e_id f) (e_id t).
Proof.
  unfold create_edges; rewrite in_flat_map; intros (f & Hf & Hr).
  apply in_map_iff in Hr as (t & <- & Ht); exists f, t; auto.
Qed.

Lemma named_name (s : Store) (n : string) (e : Entity) : In e (named s n) -> e_name e = n.
Proof. unfold named; rewrite filter_In; intros [_ H]; apply String.eqb_eq, H. Qed.

Lemma createRelations_loop_spec (now : Z) (rs : list RelationInput) (s : Store)
    (acc : list Relationship) (Hids : ids_ok s = true) :
  let '(s', created) := createRelations_loop now rs s acc in
  ents s' = ents s /\
  exists extra fresh, rels s' = rels s ++ extra /\ created = acc ++ fresh /\
    (forall r, In r fresh -> In r extra) /\ (List.length fresh <= List.length rs)%nat /\
    (forall r, In r fresh -> r_validTo r = None /\ r_version r = 1%Z /\
       exists ri, In ri rs /\ r_relationType r = ri_relationType ri
                  /\ edge_ends s r = Some (ri_from ri, ri_to ri)).
Proof.
  revert s acc Hids; induction rs as [|ri rest IH]; intros s acc Hids.
  - cbn; split; [reflexivity|]; exists [], []; rewrite !app_nil_r.
    split; [reflexivity|]; split; [reflexivity|]; split; [intros r []|].
    split; [apply le_n | intros r []].
  - cbn [createRelations_loop uuidv4].
    set (s1 := mkStore (ents s) (rels s) (S (next_id s))).
    assert (ids_ok s1 = true) as Hids1 by (apply (ids_same_ents s); [reflexivity | cbn; lia | exact Hids]).
    assert (forall fresh, (forall r, In r fresh -> r_validTo r = None /\ r_version r = 1%Z /\
                exists ri', In ri' rest /\ r_relationType r = ri_relationType ri'
                            /\ edge_ends s1 r = Some (ri_from ri', ri_to ri')) ->
              (forall r, In r fresh -> r_validTo r = None /\ r_version r = 1%Z /\
                exists ri', In ri' (ri :: rest) /\ r_relationType r = ri_relationType ri'
                            /\ edge_ends s r = Some (ri_from ri', ri_to ri'))) as Hlift.
    { intros fresh HP r Hin; destruct (HP r Hin) as (Hv & Hver & ri' & Hri' & Hty & Hee).
      split; [exact Hv|]; split; [exact Hver|]; exists ri'; split; [right; exact Hri'|].
      split; [exact Hty|]; rewrite <- Hee; apply edge_ends_same; reflexivity. }
    destruct (negb (endpoints_found s1 ri)).
    + specialize (IH s1 acc Hids1).
      destruct (createRelations_loop now rest s1 acc) as [s' created].
      destruct IH as (He & extra & fresh & Hr & Hc & Hsub & Hlen & HP).
      split; [exact He|]; exists extra, fresh.
      split; [exact Hr|]; split; [exact Hc|]; split; [exact Hsub|].
      split; [cbn [List.length]; lia | exact (Hlift fresh HP)].
    + set (newEdges := create_edges (named s1 (ri_from ri)) (named s1 (ri_to ri))
                         (new_relation_row now (next_id s) ri)).
      assert (forall r, In r newEdges -> r_validTo r = None /\ r_version r = 1%Z /\
                r_relationType r = ri_relationType ri
                /\ edge_ends s r = Some (ri_from ri, ri_to ri)) as Hnew.
      { intros r Hr; apply in_create_edges in Hr as (f & t & Hf & Ht & ->).
        pose proof (named_name _ _ _ Hf) as Hfn; pose proof (named_name _ _ _ Ht) as Htn.
        apply named_sub in Hf, Ht; cbn [s1 ents] in Hf, Ht.
        split; [reflexivity|]; split; [reflexivity|]; split; [reflexivity|].
        unfold edge_ends; cbn [new_relation_row r_from r_to].
        rewrite (node_name_of s f Hids Hf), (node_name_of s t Hids Ht), Hfn, Htn; reflexivity. }
      assert (ids_ok (add_rels s1 newEdges) = true) as Hids2
        by (apply (ids_same_ents s1); [reflexivity | cbn; lia | exact Hids1]).
      specialize (IH (add_rels s1 newEdges)
                     (match newEdges with [] => acc | r :: _ => acc ++ [r] end) Hids2).
      destruct (createRelations_loop now rest (add_rels s1 newEdges) _) as [s' created].
      destruct IH as (He & extra & fresh & Hr & Hc & Hsub & Hlen & HP).
      assert (forall r, In r fresh -> r_validTo r = None /\ r_version r = 1%Z /\
                exists ri', In ri' (ri :: rest) /\ r_relationType r = ri_relationType ri'
                            /\ edge_ends s r = Some (ri_from ri', ri_to ri')) as HP'.
      { apply Hlift; intros r Hin; destruct (HP r Hin) as (Hv & Hver & ri' & Hri' & Hty & Hee).
        split; [exact Hv|]; split; [exact Hver|]; exists ri'; split; [exact Hri'|].
        split; [exact Hty|]; rewrite <- Hee; apply edge_ends_same; reflexivity. }
      split; [exact He|].
      destruct newEdges as [|r0 rs0] eqn:En.
      * exists extra, fresh; cbn [add_rels rels s1] in Hr; rewrite app_nil_r in Hr.
        split; [exact Hr|]; split; [exact Hc|]; split; [exact Hsub|].
        split; [cbn [List.length]; lia | exact HP'].
      * exists (r0 :: rs0 ++ extra), (r0 :: fresh).
        cbn [add_rels rels s1] in Hr; rewrite <- app_assoc in Hr, Hc.
        split; [exact Hr|]; split; [exact Hc|].
        split; [intros r [<-|Hin]; [left; reflexivity | right; apply in_or_app; right; apply Hsub, Hin]|].
        split; [cbn [List.length]; lia|].
        intros r [<-|Hin]; [|apply HP', Hin].
        destruct (Hnew r0 (or_introl eq_refl)) as (Hv & Hver & Hty & Hee).
        split; [exact Hv|]; split; [exact Hver|]; exists ri; split; [left; reflexivity|]; auto.
Qed.

(** With unique node ids, [createRelations] leaves the nodes alone and only
    appends edges.  It returns at most one edge per input; each returned
    edge is one it appended: current, at version 1, with the input's type,
    from a node named [from] to a node named [to]. *)
Theorem createRelations_result (now : Z) (rs : list RelationInput) (s : Store)
    (Hids : ids_ok s = true) :
  let '(s', created) := createRelations now rs s in
  ents s' = ents s /\
  (exists extra, rels s' = rels s ++ extra /\ forall r, In r created -> In r extra) /\
  (List.length created <= List.length rs)%nat /\
  (forall r, In r created -> r_validTo r = None /\ r_version r = 1%Z /\
     exists ri, In ri rs /\ r_relationType r = ri_relationType ri
                /\ edge_ends s' r = Some (ri_from ri, ri_to ri)).
Proof.
  unfold createRelations; destruct rs as [|ri rest].
  - split; [reflexivity|]; split; [exists []; rewrite app_nil_r; split; [reflexivity | intros r []]|].
    split; [cbn; lia | intros r []].
  - pose proof (createRelations_loop_spec now (ri :: rest) s [] Hids) as H.
    destruct (createRelations_loop now (ri :: rest) s []) as [s' created].
    destruct H as (He & extra & fresh & Hr & Hc & Hsub & Hlen & HP); cbn [app] in Hc; subst created.
    split; [exact He|]; split; [exists extra; auto|]; split; [exact Hlen|].
    intros r Hin; destruct (HP r Hin) as (Hv & Hver & ri' & Hri' & Hty & Hee).
    repeat split; auto; exists ri'; repeat split; auto.
    rewrite <- Hee; apply edge_ends_same; auto.
Qed.

End CreateRelations.

(** ** Entity history *)

Section EntityHistory.

Lemma in_insert_validFrom (e y : Entity) (l : list Entity) :
  In y (Search.insert_validFrom e l) <-> y = e \/ In y l.
Proof.
  induction l as [|x r IH]; cbn [Search.insert_validFrom]; [cbn; intuition congruence|].
  destruct (Z.leb (e_validFrom x) (e_validFrom e)); cbn [In]; rewrite ?IH; intuition congruence.
Qed.

Lemma in_sort_validFrom_acc (l acc : list Entity) (y : Entity) :
  In y (fold_left (fun acc e => Search.insert_validFrom e acc) l acc) <-> In y l \/ In y acc.
Proof.
  revert acc; induction l as [|x r IH]; intros acc; cbn [fold_left]; [cbn; tauto|].
  rewrite IH, in_insert_validFrom; cbn [In]; intuition congruence.
Qed.

Lemma in_sort_validFrom (l : list Entity) (y : Entity) : In y (Search.sort_validFrom l) <-> In y l.
Proof. unfold Search.sort_validFrom; rewrite in_sort_validFrom_acc; cbn [In]; tauto. Qed.

Lemma hdrel_insert_validFrom (x e : Entity) (l : list Entity) :
  HdRel (fun a b => (e_validFrom a <= e_validFrom b)%Z) x l ->
  (e_validFrom x <= e_validFrom e)%Z ->
  HdRel (fun a b => (e_validFrom a <= e_validFrom b)%Z) x (Search.insert_validFrom e l).
Proof.
  intros H He; destruct l as [|y r]; cbn [Search.insert_validFrom]; [constructor; exact He|].
  destruct (Z.leb (e_validFrom y) (e_validFrom e)); constructor;
    [inversion H; assumption | exact He].
Qed.

Lemma sorted_insert_validFrom (e : Entity) (l : list Entity) :
  Sorted (fun a b => (e_validFrom a <= e_validFrom b)%Z) l ->
  Sorted (fun a b => (e_validFrom a <= e_validFrom b)%Z) (Search.insert_validFrom e l).
Proof.
  induction l as [|x r IH]; intros H; cbn [Search.insert_validFrom]; [repeat constructor|].
  apply Sorted_inv in H as [Hr Hx].
  destruct (Z.leb_spec (e_validFrom x) (e_validFrom e)) as [Hle|Hlt].
  - constructor; [exact (IH Hr) | exact (hdrel_insert_validFrom x e r Hx Hle)].
  - constructor; [constructor; assumption | constructor; lia].
Qed.

Lemma sorted_sort_validFrom (l : list Entity) :
  Sorted (fun a b => (e_validFrom a <= e_validFrom b)%Z) (Search.sort_validFrom l).
Proof.
  unfold Search.sort_validFrom.
  assert (forall acc, Sorted (fun a b => (e_validFrom a <= e_validFrom b)%Z) acc ->
            Sorted (fun a b => (e_validFrom a <= e_validFrom b)%Z)
              (fold_left (fun acc e => Search.insert_validFrom e acc) l acc)) as H.
  { induction l as [|x r IH]; intros acc Hacc; [exact Hacc|].
    cbn [fold_left]; apply IH, sorted_insert_validFrom, Hacc. }
  apply H; constructor.
Qed.

(** [getEntityHistory] lists the versions of a name by ascending
    [validFrom], and it only grows: after any sequence of operations
    without [deleteEntities], each version it listed is still listed,
    unchanged or (if it was current) closed. *)
Theorem getEntityHistory_kept (s : Store) (ops : list Op) (n : string)
    (Hids : ids_ok s = true) (Hnd : existsb hard_delete ops = false) :
  Sorted (fun a b => (e_validFrom a <= e_validFrom b)%Z) (Search.getEntityHistory (run_ops s ops) n) /\
  forall e, In e (Search.getEntityHistory s n) ->
    In e (Search.getEntityHistory (run_ops s ops) n) \/
    (is_current e = true /\ exists t, In (set_e_validTo t e) (Search.getEntityHistory (run_ops s ops) n)).
Proof.
  split; [apply sorted_sort_validFrom|].
  intros e He; unfold Search.getEntityHistory in *; rewrite in_sort_validFrom in He.
  pose proof (named_name _ _ _ He) as Hn; apply named_sub in He.
  destruct (run_ops_kept s ops Hids Hnd e He) as [H|[Hc [t Ht]]].
  - left; rewrite in_sort_validFrom; unfold named; apply filter_In; rewrite Hn, String.eqb_refl; auto.
  - right; split; [exact Hc|]; exists t; rewrite in_sort_validFrom; unfold named; apply filter_In.
    cbn [set_e_validTo e_name]; rewrite Hn, String.eqb_refl; auto.
Qed.

End EntityHistory.

Section ExtraWitnesses.
Local Open Scope string_scope.

Lemma generateEmbeddings_count_unit_witness :
  exists vs, Embedding.generateEmbeddings 2 ["a"; "b"]%string (Some [1; 0; 0; 1]%R) = KG.Done vs
  /\ List.length vs = List.length ["a"; "b"]%string
  /\ Forall (fun v => Embedding.magnitude v = 1%R) vs.
Proof.
  eexists; split; [reflexivity|].
  apply (generateEmbeddings_count_unit 2 ["a"; "b"]%string (Some [1; 0; 0; 1]%R)); reflexivity.
Defined.

Lemma generateEmbeddings_dimensions_witness :
  exists vs, Embedding.generateEmbeddings 2 ["a"; "b"]%string (Some [3; 4; 0; 1]%R) = KG.Done vs
  /\ Forall (fun v => List.length v = Z.to_nat 2) vs.
Proof.
  eexists; split; [reflexivity|].
  apply (generateEmbeddings_dimensions 2 ["a"; "b"]%string [3; 4; 0; 1]%R); [lia | reflexivity | reflexivity].
Defined.

Lemma generateEmbeddings_short_output_witness :
  exists vs, Embedding.generateEmbeddings 2 ["a"; "b"]%string (Some [3; 4]%R) = KG.Done vs
  /\ nth 1 vs [] = [1%R].
Proof.
  eexists; split; [reflexivity|].
  apply (generateEmbeddings_short_output 2 ["a"; "b"]%string [3; 4]%R _ 1); [lia | reflexivity | simpl; lia | simpl; lia].
Defined.


Lemma createFromEnvironment_without_key_witness :
  Factory.createFromEnvironment (fun _ => KG.Done 0%nat) (fun _ _ _ => KG.Done 1%nat) (fun _ => 2%nat)
    (Factory.mkProcessEnv None None None None None) = KG.Done 2%nat.
Proof.
  rewrite (createFromEnvironment_without_key (fun _ => KG.Done 0%nat) (fun _ _ _ => KG.Done 1%nat)
             (fun _ => 2%nat) (Factory.mkProcessEnv None None None None None));
    [reflexivity | discriminate | reflexivity].
Defined.

Lemma run_ops_store_wf_witness :
  store_wf (run_ops Examples.storeAB Examples.opsMixed) = true.
Proof. apply (run_ops_store_wf Examples.storeAB Examples.opsMixed); vm_compute; reflexivity. Defined.

Lemma run_ops_history_kept_witness :
  history_kept Examples.storeAB
    (run_ops Examples.storeAB [OpDeleteObservations 4 [("A", ["o1"])]; OpAddObservations 5 [("B", ["y"])]]).
Proof. apply run_ops_history_kept; vm_compute; reflexivity. Defined.




Lemma updateRelation_getRelation_witness :
  match updateRelation 3 Examples.riHalf Examples.storeRel with
  | Thrown _ => False
  | Done s' => exists r, getRelation s' "A" "B" "relates_to" = Some ("A", "B", r)
                         /\ r_strength r = Some (1 # 2)%Q /\ r_version r = 2%Z
  end.
Proof.
  pose proof (updateRelation_getRelation 3 Examples.riHalf Examples.storeRel
                (mkRel 2 0 1 "relates_to" None None None 1 2 2 2 None None)
                ltac:(vm_compute; reflexivity) ltac:(vm_compute; reflexivity)) as H.
  destruct (updateRelation 3 Examples.riHalf Examples.storeRel) as [s'|msg]; [|exact H].
  destruct H as [_ (r & Hg & _ & Hs & _ & Hv & _)]; exists r; split; [exact Hg|].
  split; [exact Hs | rewrite Hv; reflexivity].
Defined.

Lemma loadGraph_current_unique_witness :
  NoDup (map e_name (g_entities (loadGraph Examples.storeAB))).
Proof.
  apply (loadGraph_current_unique Examples.storeAB
           (one_current_b_sound Examples.storeAB ltac:(vm_compute; reflexivity))).
Defined.


Lemma createRelations_result_witness :
  let '(s', created) := createRelations 2 [simpleRelation "A" "B" "relates_to"] Examples.storeEAB in
  ents s' = ents Examples.storeEAB /\ (List.length created <= 1)%nat.
Proof.
  pose proof (createRelations_result 2 [simpleRelation "A" "B" "relates_to"] Examples.storeEAB
                ltac:(vm_compute; reflexivity)) as H.
  destruct (createRelations 2 [simpleRelation "A" "B" "relates_to"] Examples.storeEAB) as [s' c].
  destruct H as (He & _ & Hl & _); split; [exact He | exact Hl].
Defined.

Lemma getEntityHistory_kept_witness :
  Sorted (fun a b => (e_validFrom a <= e_validFrom b)%Z)
    (Search.getEntityHistory (run_ops Examples.storeAB [OpAddObservations 5 [("A", ["y"])]]) "A").
Proof.
  apply (getEntityHistory_kept Examples.storeAB [OpAddObservations 5 [("A", ["y"])]] "A");
    vm_compute; reflexivity.
Defined.

End ExtraWitnesses.
